(** * video-sync: the streaming route and the socket gateway of the server

    A shallow embedding of the server file of the repository (Express routes
    and socket.io handlers) and the properties of its byte-range streaming
    route and of its real-time room logic.

    Conventions of the embedding:
    - JavaScript numbers that the code computes with are offsets and sizes;
      they are modelled as [option Z], [None] standing for [NaN].  The model
      is exact for the integers a double represents exactly (below 2^53).
    - Collaborators that are libraries or services (jsonwebtoken, MongoDB
      through Mongoose, the file system, the socket.io adapter) are modelled
      by what the handlers observe of them: a result or a thrown error.
    - A handler returns the new server state and the ordered log of the
      effects it performed (documents saved, events emitted, errors logged). *)

From Stdlib Require Import ZArith QArith_base Ascii String.
From stdpp Require Import gmap strings list fin_maps pretty.

Open Scope Z_scope.

(** ** JavaScript string and number primitives used by the server *)
Module JS.

(** A JS number restricted to integers, [None] is [NaN].  The integers a
    double holds exactly are those up to [2^53 - 1] in absolute value;
    arithmetic and [parseInt] below are those of JavaScript on such
    numbers, and are exact beyond, where JavaScript rounds. *)
Definition Num : Type := option Z.

Definition NaN : Num := None.

(** [a - b] and [a + b] on numbers: [NaN] is absorbing. *)
Definition sub (a b : Num) : Num :=
  match a, b with
  | Some x, Some y => Some (x - y)
  | _, _ => None
  end.

Definition add (a b : Num) : Num :=
  match a, b with
  | Some x, Some y => Some (x + y)
  | _, _ => None
  end.

(** String conversion of a number, as a template literal does it. *)
Definition toString (n : Num) : string :=
  match n with
  | Some z => pretty z
  | None => "NaN"
  end.

(** Truthiness of an optional string: [undefined] and [""] are falsy. *)
Definition truthy (s : option string) : bool :=
  match s with
  | Some (String _ _) => true
  | _ => false
  end.

(** White space that [parseInt] skips, among the Latin-1 characters a
    header value can hold: TAB, LF, VT, FF, CR, SP and NBSP. *)
Definition isWhiteSpace (c : ascii) : bool :=
  let n := Z.of_N (N_of_ascii c) in
  ((9 <=? n) && (n <=? 13)) || (n =? 32) || (n =? 160).

Definition digit (c : ascii) : option Z :=
  let n := Z.of_N (N_of_ascii c) in
  if (48 <=? n) && (n <=? 57) then Some (n - 48) else None.

Fixpoint skipWhiteSpace (s : string) : string :=
  match s with
  | String c s' => if isWhiteSpace c then skipWhiteSpace s' else s
  | EmptyString => s
  end.

(** The longest prefix of decimal digits, read as a number; [acc] is the
    value read so far, [NaN] before the first digit. *)
Fixpoint parseDigits (acc : Num) (s : string) : Num :=
  match s with
  | String c s' =>
      match digit c with
      | Some d => parseDigits (Some (10 * default 0 acc + d)) s'
      | None => acc
      end
  | EmptyString => acc
  end.

(** [parseInt(s, 10)]: leading white space, an optional sign, digits;
    whatever follows the digits is ignored, no digit at all gives [NaN]. *)
Definition parseInt (s : string) : Num :=
  match skipWhiteSpace s with
  | String "-"%char s' => Z.opp <$> parseDigits NaN s'
  | String "+"%char s' => parseDigits NaN s'
  | s' => parseDigits NaN s'
  end.

(** [s.split(sep)] for a separator of one character. *)
Fixpoint split (sep : ascii) (s : string) : list string :=
  match s with
  | EmptyString => [EmptyString]
  | String c s' =>
      if Ascii.eqb c sep then EmptyString :: split sep s'
      else match split sep s' with
           | h :: t => String c h :: t
           | [] => [String c EmptyString]
           end
  end.

Fixpoint stripPrefix (p s : string) : option string :=
  match p, s with
  | EmptyString, _ => Some s
  | String a p', String b s' =>
      if Ascii.eqb a b then stripPrefix p' s' else None
  | String _ _, EmptyString => None
  end.

(** [s.replace(/pat/, "")] for a pattern without metacharacters: the
    first occurrence of [pat] is removed. *)
Fixpoint removeFirst (pat s : string) : string :=
  match stripPrefix pat s with
  | Some rest => rest
  | None =>
      match s with
      | String c s' => String c (removeFirst pat s')
      | EmptyString => EmptyString
      end
  end.

(** [parts[i]] of an array of strings: [undefined] out of range. *)
Definition index (parts : list string) (i : nat) : option string :=
  parts !! i.

(** [parseInt] of an array element: [parseInt(undefined)] is [NaN]. *)
Definition parseIntAt (parts : list string) (i : nat) : Num :=
  match index parts i with
  | Some p => parseInt p
  | None => NaN
  end.

End JS.

(** ** The video streaming route, [GET /api/stream/:roomId] *)
Module Streamer.

(** The fields of a room document that the route reads. *)
Record RoomDoc := {
  isLocalFile : bool;
  localFilePath : option string
}.

(** Outcome of [Room.findById]: the query rejects, resolves to [null], or
    resolves to a document. *)
Inductive Query (A : Type) : Type :=
| Rejected
| Null
| Doc (a : A).
Arguments Rejected {A}.
Arguments Null {A}.
Arguments Doc {A} a.

(** What the route observes of its collaborators. *)
Record Backend := {
  jwtVerify : string -> bool;                 (* jwt.verify reports no error *)
  roomFindById : string -> Query RoomDoc;     (* Room.findById *)
  fsFile : string -> option (list Byte.byte)  (* file content; None: no such file *)
}.

Record Request := {
  roomId : string;                  (* req.params.roomId *)
  authorization : option string;    (* req.headers['authorization'] *)
  range : option string             (* req.headers.range *)
}.

Inductive HeaderValue :=
| HStr (s : string)
| HNum (n : JS.Num).

Inductive Body :=
| Text (s : string)
| Bytes (b : list Byte.byte).

Record Response := {
  status : Z;
  headers : list (string * HeaderValue);
  body : Body
}.

Definition sendStatus (code : Z) (reason : string) : Response :=
  {| status := code; headers := []; body := Text reason |}.

Definition send (code : Z) (text : string) : Response :=
  {| status := code; headers := []; body := Text text |}.

Definition header (name : string) (r : Response) : option HeaderValue :=
  snd <$> List.find (fun h => String.eqb (fst h) name) (headers r).

(** [fs.createReadStream(path, { start, end })] on a file that exists:
    the constructor throws ([None]) unless [start] and [end] are
    non-negative integers with [start <= end]; otherwise the stream
    delivers the bytes at offsets [start..end], as far as the file goes.
    Node also throws when [start] or [end] is above [2^53 - 1]; the
    definition follows the constructor on offsets up to that bound
    ([maxSafeInteger] below), and the properties of windows read from a
    header are stated for such offsets. *)
Definition createReadStream (content : list Byte.byte) (start end_ : JS.Num)
  : option (list Byte.byte) :=
  match start, end_ with
  | Some s, Some e =>
      if (0 <=? s) && (0 <=? e) && (s <=? e)
      then Some (take (Z.to_nat (e - s + 1)) (drop (Z.to_nat s) content))
      else None
  | _, _ => None
  end.

(** Lines 130-132: the window the route derives from a Range header. *)
Definition rangeParts (rangeHeader : string) : list string :=
  JS.split "-"%char (JS.removeFirst "bytes=" rangeHeader).

Definition rangeStart (rangeHeader : string) : JS.Num :=
  JS.parseIntAt (rangeParts rangeHeader) 0.

Definition rangeEnd (rangeHeader : string) (fileSize : Z) : JS.Num :=
  let parts := rangeParts rangeHeader in
  if JS.truthy (JS.index parts 1) then JS.parseIntAt parts 1
  else Some (fileSize - 1).

Definition contentRange (start end_ : JS.Num) (fileSize : Z) : string :=
  "bytes " +:+ JS.toString start +:+ "-" +:+ JS.toString end_
    +:+ "/" +:+ pretty fileSize.

Definition streamingError : Response := send 500 "Error streaming video".
Definition videoNotFound : Response := send 404 "Video not found".

(** The body of the route handler, after the authentication middleware. *)
Definition streamHandler (B : Backend) (req : Request) : Response :=
  match roomFindById B (roomId req) with
  | Rejected => streamingError
  | Null => videoNotFound
  | Doc room =>
      if negb (isLocalFile room) || negb (JS.truthy (localFilePath room))
      then videoNotFound
      else
        match fsFile B (default EmptyString (localFilePath room)) with
        | None => streamingError          (* fs.statSync throws *)
        | Some content =>
            let fileSize := Z.of_nat (length content) in
            if JS.truthy (range req) then
              let r := default EmptyString (range req) in
              let start := rangeStart r in
              let end_ := rangeEnd r fileSize in
              let chunksize := JS.add (JS.sub end_ start) (Some 1) in
              match createReadStream content start end_ with
              | None => streamingError
              | Some file =>
                  {| status := 206;
                     headers :=
                       [("Content-Range", HStr (contentRange start end_ fileSize));
                        ("Accept-Ranges", HStr "bytes");
                        ("Content-Length", HNum chunksize);
                        ("Content-Type", HStr "video/mp4")];
                     body := Bytes file |}
              end
            else
              {| status := 200;
                 headers :=
                   [("Content-Length", HNum (Some fileSize));
                    ("Content-Type", HStr "video/mp4")];
                 body := Bytes content |}
        end
  end.

(** [authenticateToken]: the second word of the Authorization header is
    the token; no token is 401, a token that does not verify is 403. *)
Definition authenticateToken (B : Backend) (req : Request)
    (next : Request -> Response) : Response :=
  let token :=
    match authorization req with
    | Some h => JS.index (JS.split " "%char h) 1
    | None => None
    end in
  if negb (JS.truthy token) then sendStatus 401 "Unauthorized"
  else if jwtVerify B (default EmptyString token) then next req
  else sendStatus 403 "Forbidden".

(** [app.get('/api/stream/:roomId', authenticateToken, handler)]. *)
Definition getStream (B : Backend) (req : Request) : Response :=
  authenticateToken B req (streamHandler B).

Definition authenticated (B : Backend) (req : Request) : Prop :=
  exists h tok,
    authorization req = Some h /\
    JS.index (JS.split " "%char h) 1 = Some tok /\
    JS.truthy (Some tok) = true /\
    jwtVerify B tok = true.

(** *** Well-formed Range headers and the properties claimed of a response *)

(** A string of decimal digits, possibly empty. *)
Fixpoint allDigits (s : string) : bool :=
  match s with
  | String c s' =>
      match JS.digit c with
      | Some _ => allDigits s'
      | None => false
      end
  | EmptyString => true
  end.

(** The number a string of decimal digits denotes, most significant
    digit first, continuing from [acc]. *)
Fixpoint decimalFrom (acc : Z) (s : string) : Z :=
  match s with
  | String c s' => decimalFrom (10 * acc + (Z.of_N (N_of_ascii c) - 48)) s'
  | EmptyString => acc
  end.

Definition decimalValue (s : string) : Z := decimalFrom 0 s.

Fixpoint occurs (c : ascii) (s : string) : bool :=
  match s with
  | String c' s' => Ascii.eqb c' c || occurs c s'
  | EmptyString => false
  end.

(** [bytes=<start>-<end?>] with [start] a non-empty digit string and
    [end] a digit string that may be omitted. *)
Definition rangeHeader (startDigits endDigits : string) : string :=
  "bytes=" +:+ startDigits +:+ "-" +:+ endDigits.

Definition wellFormedRange (h : string) : Prop :=
  exists startDigits endDigits,
    allDigits startDigits = true /\ startDigits <> EmptyString /\
    allDigits endDigits = true /\ h = rangeHeader startDigits endDigits.

(** [Number.MAX_SAFE_INTEGER]: up to it, [parseInt] and the conversion to a
    string are exact. *)
Definition maxSafeInteger : Z := 2 ^ 53 - 1.

(** The end of the window a well-formed header asks for. *)
Definition requestedEnd (endDigits : string) (fileSize : Z) : Z :=
  match endDigits with
  | EmptyString => fileSize - 1
  | _ => decimalValue endDigits
  end.

(** The start position the route uses lies inside the file. *)
Definition startWithinFile (h : string) (fileSize : Z) : Prop :=
  exists s, rangeStart h = Some s /\ 0 <= s <= fileSize - 1.

(** The full response: status 200, the file's size and the whole file. *)
Definition fullResponse (content : list Byte.byte) (r : Response) : Prop :=
  status r = 200 /\
  header "Content-Length" r = Some (HNum (Some (Z.of_nat (length content)))) /\
  body r = Bytes content.

(** The room store has a local-file room for the request, and the file
    system has its file. *)
Definition servesFile (B : Backend) (req : Request)
    (content : list Byte.byte) : Prop :=
  exists room path,
    roomFindById B (roomId req) = Doc room /\
    isLocalFile room = true /\
    localFilePath room = Some path /\ path <> EmptyString /\
    fsFile B path = Some content.

(** The conditions under which the claim expects 404. *)
Definition roomInvalid (B : Backend) (req : Request) : Prop :=
  roomFindById B (roomId req) = Null \/
  exists room,
    roomFindById B (roomId req) = Doc room /\
    (isLocalFile room = false \/ JS.truthy (localFilePath room) = false).

Definition fileMissing (B : Backend) (req : Request) : Prop :=
  exists room path,
    roomFindById B (roomId req) = Doc room /\
    isLocalFile room = true /\
    localFilePath room = Some path /\ path <> EmptyString /\
    fsFile B path = None.

(** A backend and requests for concrete runs: one local-file room ["r1"]
    whose file has 1000 bytes, one whose file is gone, one remote room. *)
Definition demoFile : list Byte.byte :=
  replicate 100 Byte.x41 ++ replicate 900 Byte.x42.

Definition demoBackend : Backend :=
  {| jwtVerify := fun t => String.eqb t "good";
     roomFindById := fun r =>
       if String.eqb r "r1"
       then Doc {| isLocalFile := true; localFilePath := Some "/videos/a.mp4" |}
       else if String.eqb r "r2"
       then Doc {| isLocalFile := true; localFilePath := Some "/videos/gone.mp4" |}
       else if String.eqb r "r3"
       then Doc {| isLocalFile := false; localFilePath := None |}
       else Null;
     fsFile := fun p =>
       if String.eqb p "/videos/a.mp4" then Some demoFile else None |}.

Definition demoRequest (room : string) (rangeHdr : option string) : Request :=
  {| roomId := room; authorization := Some "Bearer good"; range := rangeHdr |}.


End Streamer.

(** ** The socket.io gateway: room registry, playback relay and chat *)
Module Gateway.

Definition ConnId : Type := string.   (* socket.id *)
Definition RoomId : Type := string.
Definition UserId : Type := string.

(** The playback state a client submits: [{ isPlaying, currentTime }]. *)
Record VideoState := {
  isPlaying : bool;
  currentTime : Q
}.

(** An entry of the [rooms] map. *)
Record Session := {
  videoState : VideoState;
  users : gset ConnId
}.

(** A document of the Message collection; [timestamp] is given its
    default, [Date.now], when the document is constructed. *)
Record MessageDoc := {
  _id : nat;
  room : RoomId;
  user : UserId;
  message : string;
  timestamp : Z
}.

(** A message read back with [populate('user', 'username')]: the author
    reference is replaced by the user's name, or by [null] when no such
    user exists. *)
Record PopulatedMessage := {
  pMessage : string;
  pUser : option string;
  pTimestamp : Z
}.

(** The state of the server process and of its database.  [adapter] is the
    socket.io room membership that [socket.join] maintains and that
    [socket.to(room)] and [io.to(room)] broadcast to.  The room socket.io
    keeps for every socket under the socket's own id enters it when the
    socket connects, see [Sockets.connection]. *)
Record Server := {
  rooms : gmap RoomId Session;
  adapter : gmap RoomId (gset ConnId);
  userCollection : gmap UserId string;
  messageCollection : list MessageDoc
}.

Inductive ServerEvent :=
| VideoStateUpdate (vs : VideoState)                       (* 'video-state-update' *)
| ChatBroadcast (msg : string) (username : string) (ts : Z). (* 'chat-message' *)

(** What a handler does that is visible outside the registry. *)
Inductive Effect :=
| Saved (doc : MessageDoc)                    (* a document written to the store *)
| Emit (recipients : gset ConnId) (ev : ServerEvent)
| ConsoleError (label : string).

(** The payload of a verified token. *)
Record Decoded := { tokenId : UserId; tokenUsername : string }.

(** The collaborators as one handler run observes them. *)
Record Env := {
  jwtVerify : string -> option Decoded;  (* None: jwt.verify throws *)
  now : Z;                               (* Date.now() *)
  saveRejects : bool;                    (* newMessage.save() rejects *)
  findRejects : bool                     (* Message.findById(..) rejects *)
}.

Inductive ClientEvent :=
| JoinRoom (roomId : RoomId)
| VideoStateChange (roomId : RoomId) (vs : VideoState)
| ChatMessage (roomId : RoomId) (msg : string) (token : option string)
| Disconnect.

Record Input := {
  conn : ConnId;
  event : ClientEvent;
  env : Env
}.

Definition defaultState : VideoState :=
  {| isPlaying := false; currentTime := 0%Q |}.

Definition setRooms (m : gmap RoomId Session) (σ : Server) : Server :=
  {| rooms := m; adapter := adapter σ;
     userCollection := userCollection σ;
     messageCollection := messageCollection σ |}.

Definition setAdapter (a : gmap RoomId (gset ConnId)) (σ : Server) : Server :=
  {| rooms := rooms σ; adapter := a;
     userCollection := userCollection σ;
     messageCollection := messageCollection σ |}.

Definition setMessages (ms : list MessageDoc) (σ : Server) : Server :=
  {| rooms := rooms σ; adapter := adapter σ;
     userCollection := userCollection σ;
     messageCollection := ms |}.

(** The sockets currently in socket.io room [roomId]. *)
Definition roomMembers (σ : Server) (roomId : RoomId) : gset ConnId :=
  default ∅ (adapter σ !! roomId).

(** [socket.join(roomId)]. *)
Definition socketJoin (c : ConnId) (roomId : RoomId) (σ : Server) : Server :=
  setAdapter (<[roomId := roomMembers σ roomId ∪ {[c]}]> (adapter σ)) σ.

(** socket.io takes a closing socket out of every room. *)
Definition socketLeaveAll (c : ConnId) (σ : Server) : Server :=
  setAdapter ((fun members => members ∖ {[c]}) <$> adapter σ) σ.

Definition addUser (c : ConnId) (s : Session) : Session :=
  {| videoState := videoState s; users := users s ∪ {[c]} |}.

(** The handler of 'join-room'. *)
Definition joinRoom (c : ConnId) (roomId : RoomId) (σ : Server)
  : Server * list Effect :=
  let σ1 := socketJoin c roomId σ in
  let σ2 :=
    match rooms σ1 !! roomId with
    | Some _ => σ1
    | None =>
        setRooms (<[roomId := {| videoState := defaultState; users := ∅ |}]>
                    (rooms σ1)) σ1
    end in
  (setRooms (alter (addUser c) roomId (rooms σ2)) σ2, []).

(** The handler of 'video-state-change'. *)
Definition videoStateChange (c : ConnId) (roomId : RoomId) (vs : VideoState)
    (σ : Server) : Server * list Effect :=
  match rooms σ !! roomId with
  | Some session =>
      (setRooms (<[roomId := {| videoState := vs; users := users session |}]>
                   (rooms σ)) σ,
       [Emit (roomMembers σ roomId ∖ {[c]}) (VideoStateUpdate vs)])
  | None => (σ, [])
  end.

(** One round of the [rooms.forEach] of the 'disconnect' handler: the
    entry that remains for a session, if any. *)
Definition dropUser (c : ConnId) (s : Session) : option Session :=
  let remaining := users s ∖ {[c]} in
  if decide (size remaining = 0%nat) then None
  else Some {| videoState := videoState s; users := remaining |}.

(** The handler of 'disconnect'. *)
Definition disconnect (c : ConnId) (σ : Server) : Server * list Effect :=
  let σ1 := socketLeaveAll c σ in
  (setRooms (omap (dropUser c) (rooms σ1)) σ1, []).

(** *** The chat handler, in a state-and-exception monad *)

Inductive Result (A : Type) : Type :=
| Return (a : A)
| Throw (error : string).
Arguments Return {A} a.
Arguments Throw {A} error.

(** A computation over the server state and the effect log that returns
    or throws; what was done before a throw stays done. *)
Definition M (A : Type) : Type :=
  Server * list Effect -> Result A * (Server * list Effect).

#[export] Instance M_ret : MRet M := fun A a st => (Return a, st).

#[export] Instance M_bind : MBind M := fun A B k m st =>
  match m st with
  | (Return a, st') => k a st'
  | (Throw e, st') => (Throw e, st')
  end.

Definition throw {A : Type} (e : string) : M A := fun st => (Throw e, st).

Definition tryCatch (body : M unit) (handler : string -> M unit) : M unit :=
  fun st =>
    match body st with
    | (Return tt, st') => (Return tt, st')
    | (Throw e, st') => handler e st'
    end.

Definition getServer : M Server := fun st => (Return (fst st), st).

Definition perform (e : Effect) : M unit :=
  fun st => (Return tt, (fst st, snd st ++ [e])).

(** [jwt.verify(token, secret)]; a missing token throws as well. *)
Definition verify (ε : Env) (token : option string) : M Decoded :=
  match token with
  | Some t =>
      match jwtVerify ε t with
      | Some decoded => mret decoded
      | None => throw "JsonWebTokenError"
      end
  | None => throw "JsonWebTokenError"
  end.

(** [new Message({ room, user, message })]: a fresh identifier and the
    default timestamp.  Identifiers are positions in the collection. *)
Definition newMessageDoc (ε : Env) (roomId : RoomId) (author : UserId)
    (text : string) : M MessageDoc :=
  σ ← getServer;
  mret {| _id := length (messageCollection σ); room := roomId;
          user := author; message := text; timestamp := now ε |}.

(** [await newMessage.save()]. *)
Definition save (ε : Env) (doc : MessageDoc) : M unit :=
  if saveRejects ε then throw "MongoError"
  else fun st =>
    (Return tt,
     (setMessages (messageCollection (fst st) ++ [doc]) (fst st),
      snd st ++ [Saved doc])).

(** [await Message.findById(id).populate('user', 'username')]. *)
Definition findByIdPopulate (ε : Env) (id : nat)
  : M (option PopulatedMessage) :=
  if findRejects ε then throw "MongoError"
  else
    σ ← getServer;
    mret ((fun doc =>
             {| pMessage := message doc;
                pUser := userCollection σ !! user doc;
                pTimestamp := timestamp doc |})
          <$> messageCollection σ !! id).

(** Property access [o.field] on a value that may be [null]. *)
Definition deref {A : Type} (o : option A) : M A :=
  match o with
  | Some a => mret a
  | None => throw "TypeError"
  end.

(** [io.to(roomId).emit(..)]: every socket of the room, sender or not. *)
Definition ioToEmit (roomId : RoomId) (ev : ServerEvent) : M unit :=
  σ ← getServer;
  perform (Emit (roomMembers σ roomId) ev).

(** The handler of 'chat-message'.  The [await]s resume within the same
    step: no other handler is interleaved with a run of this one. *)
Definition chatMessage (ε : Env) (roomId : RoomId) (text : string)
    (token : option string) : M unit :=
  tryCatch
    (decoded ← verify ε token;
     newMessage ← newMessageDoc ε roomId (tokenId decoded) text;
     _ ← save ε newMessage;
     found ← findByIdPopulate ε (_id newMessage);
     populatedMessage ← deref found;
     author ← deref (pUser populatedMessage);
     ioToEmit roomId
       (ChatBroadcast (pMessage populatedMessage) author
          (pTimestamp populatedMessage)))
    (fun error => perform (ConsoleError "Error saving message:")).

(** One event delivered to the server: the handler registered for it runs
    to completion. The log holds the effects of this run only. *)
Definition handle (i : Input) (σ : Server) : Server * list Effect :=
  match event i with
  | JoinRoom roomId => joinRoom (conn i) roomId σ
  | VideoStateChange roomId vs => videoStateChange (conn i) roomId vs σ
  | ChatMessage roomId text token =>
      snd (chatMessage (env i) roomId text token (σ, []))
  | Disconnect => disconnect (conn i) σ
  end.

(** The server after a sequence of events, oldest first. *)
Definition run (trace : list Input) (σ : Server) : Server :=
  foldl (fun σ i => fst (handle i σ)) σ trace.

(** The server at start-up: [rooms] is a new Map and no socket is
    connected; the database holds whatever it held. *)
Definition boot (usersDb : gmap UserId string) (messagesDb : list MessageDoc)
  : Server :=
  {| rooms := ∅; adapter := ∅;
     userCollection := usersDb; messageCollection := messagesDb |}.

(** The connections that joined [roomId] and have not disconnected since
    (the member set in the words of the specification). *)
Definition joinedAfter (i : Input) (roomId : RoomId) (members : gset ConnId)
  : gset ConnId :=
  match event i with
  | JoinRoom r => if decide (r = roomId) then members ∪ {[conn i]} else members
  | Disconnect => members ∖ {[conn i]}
  | _ => members
  end.

Definition joined (trace : list Input) (roomId : RoomId) : gset ConnId :=
  foldl (fun members i => joinedAfter i roomId members) ∅ trace.

(** *** Notions the properties are stated with *)

Definition input (c : ConnId) (ev : ClientEvent) (ε : Env) : Input :=
  {| conn := c; event := ev; env := ε |}.

(** The member set of the session of [roomId]; empty when there is none. *)
Definition sessionMembers (σ : Server) (roomId : RoomId) : gset ConnId :=
  from_option users ∅ (rooms σ !! roomId).

(** No session is empty, and the registry and the socket.io rooms agree. *)
Definition consistent (σ : Server) : Prop :=
  forall roomId,
    (forall s, rooms σ !! roomId = Some s -> users s ≠ ∅) /\
    roomMembers σ roomId = sessionMembers σ roomId.

(** Some event of the log is sent to connection [c]. *)
Definition sentTo (c : ConnId) (log : list Effect) : Prop :=
  exists recipients ev, Emit recipients ev ∈ log /\ c ∈ recipients.

(** The document the chat handler constructs for a message. *)
Definition chatDoc (σ : Server) (ε : Env) (roomId : RoomId) (author : UserId)
    (text : string) : MessageDoc :=
  {| _id := length (messageCollection σ); room := roomId; user := author;
     message := text; timestamp := now ε |}.

(** The token is missing or does not verify. *)
Definition tokenRejected (ε : Env) (token : option string) : Prop :=
  token = None \/ exists t, token = Some t /\ jwtVerify ε t = None.

Definition chatError : Effect := ConsoleError "Error saving message:".

(** [e1] occurs in the log strictly before [e2]. *)
Definition precedes (e1 e2 : Effect) (log : list Effect) : Prop :=
  exists before between after, log = before ++ e1 :: between ++ e2 :: after.

(** Collaborators and traces for concrete runs. *)
Definition demoEnv : Env :=
  {| jwtVerify := fun t =>
       if String.eqb t "good"
       then Some {| tokenId := "u1"; tokenUsername := "ann" |}
       else None;
     now := 1700000000000;
     saveRejects := false;
     findRejects := false |}.

Definition demoStoreDown : Env :=
  {| jwtVerify := jwtVerify demoEnv; now := now demoEnv;
     saveRejects := true; findRejects := false |}.

Definition demoPlaying : VideoState :=
  {| isPlaying := true; currentTime := 42%Q |}.

Definition demoHistory : list MessageDoc :=
  [{| _id := 0; room := "r"; user := "u1"; message := "hello";
      timestamp := 1690000000000 |}].

Definition demoBoot : Server := boot {[ "u1" := "ann" ]} demoHistory.

(** Two viewers in room ["r"], the first of them has pressed play. *)
Definition demoTrace : list Input :=
  [input "a" (JoinRoom "r") demoEnv;
   input "b" (JoinRoom "r") demoEnv;
   input "a" (VideoStateChange "r" demoPlaying) demoEnv].

(** One viewer alone in room ["r"], playing. *)
Definition demoSolo : list Input :=
  [input "a" (JoinRoom "r") demoEnv;
   input "a" (VideoStateChange "r" demoPlaying) demoEnv].

End Gateway.

(** ** Connections: the room socket.io keeps for every socket *)
Module Sockets.
Import Gateway.

(** What reaches the server: a socket connects, or a socket sends an
    event. *)
Inductive Arrival :=
| Connection (c : ConnId)     (* io.on('connection', (socket) => ...) *)
| Message (i : Input).

(** A socket connects: socket.io puts it in the room named by its id; the
    connection handler itself only logs the id and registers the four
    handlers. *)
Definition connection (c : ConnId) (σ : Server) : Server * list Effect :=
  (socketJoin c c σ, []).

Definition arrive (a : Arrival) (σ : Server) : Server * list Effect :=
  match a with
  | Connection c => connection c σ
  | Message i => handle i σ
  end.

(** The server after a sequence of arrivals, oldest first. *)
Definition serve (arrivals : list Arrival) (σ : Server) : Server :=
  foldl (fun σ a => fst (arrive a σ)) σ arrivals.

(** The sockets that connected and have not disconnected since. *)
Definition connectedAfter (a : Arrival) (sockets : gset ConnId)
  : gset ConnId :=
  match a with
  | Connection c => sockets ∪ {[c]}
  | Message i =>
      match event i with
      | Disconnect => sockets ∖ {[conn i]}
      | _ => sockets
      end
  end.

Definition connected (arrivals : list Arrival) : gset ConnId :=
  foldl (fun sockets a => connectedAfter a sockets) ∅ arrivals.

(** The connections that joined [roomId] with join-room and have not
    disconnected since. *)
Definition membersAfter (a : Arrival) (roomId : RoomId) (members : gset ConnId)
  : gset ConnId :=
  match a with
  | Connection _ => members
  | Message i => joinedAfter i roomId members
  end.

Definition members (arrivals : list Arrival) (roomId : RoomId) : gset ConnId :=
  foldl (fun m a => membersAfter a roomId m) ∅ arrivals.

(** The connected socket whose id is [roomId], if there is one: it is in
    the socket.io room of that name without having joined it. *)
Definition ownRoom (arrivals : list Arrival) (roomId : RoomId) : gset ConnId :=
  if decide (roomId ∈ connected arrivals) then {[roomId]} else ∅.

(** No session is empty; the session of a room holds its members; the
    socket.io room holds them and the socket of that name. *)
Definition coherent (arrivals : list Arrival) (σ : Server) : Prop :=
  forall roomId,
    (forall s, rooms σ !! roomId = Some s -> users s ≠ ∅) /\
    sessionMembers σ roomId = members arrivals roomId /\
    roomMembers σ roomId = members arrivals roomId ∪ ownRoom arrivals roomId.

(** Two sockets, by their ids, and a room of the Room collection, by its
    ObjectId. *)
Definition socketX : ConnId := "Xq3vJ0kT9bLm2ZpAAAAB".
Definition socketA : ConnId := "pR7sW1nY5dFg8HjAAAAD".
Definition roomObjectId : RoomId := "65a1b2c3d4e5f60718293a4b".

(** Socket X connects and joins nothing; socket A connects and joins the
    room named by X's id. *)
Definition demoNamedAfterSocket : list Arrival :=
  [Connection socketX;
   Connection socketA;
   Message (input socketA (JoinRoom socketX) demoEnv)].


(** Two viewers in the room [roomObjectId], playing. *)
Definition demoRoomTrace : list Input :=
  [input "a" (JoinRoom roomObjectId) demoEnv;
   input "b" (JoinRoom roomObjectId) demoEnv;
   input "a" (VideoStateChange roomObjectId demoPlaying) demoEnv].

(** A user of the User collection, by its ObjectId; the token ["good"]
    verifies and carries it; the store accepts the chat document. *)
Definition userObjectId : UserId := "64f0a1b2c3d4e5f607182930".

Definition demoUsersDb : gmap UserId string := {[ userObjectId := "ann" ]}.

Definition demoAccepting : Env :=
  {| jwtVerify := fun t =>
       if String.eqb t "good"
       then Some {| tokenId := userObjectId; tokenUsername := "ann" |}
       else None;
     now := 1700000000000;
     saveRejects := false;
     findRejects := false |}.

(** The same token, and a chat document the store refuses, as
    [newMessage.save()] refuses one whose room does not cast to an
    ObjectId. *)
Definition demoRefusing : Env :=
  {| jwtVerify := jwtVerify demoAccepting; now := now demoAccepting;
     saveRejects := true; findRejects := false |}.

(** Three sockets connect; two of them watch the room [roomObjectId]. *)
Definition demoRoomArrivals : list Arrival :=
  Connection "a" :: Connection "b" :: Connection "z"
    :: (Message <$> demoRoomTrace).

End Sockets.

(** ** The JSON routes: accounts, rooms, PIN check and chat history *)
Module Api.
Import Gateway.

(** What a route answers: [res.status(code).json(payload)], or the
    [{ error }] object of a failure. *)
Inductive Reply (A : Type) : Type :=
| Json (code : Z) (payload : A)
| ErrorJson (code : Z) (error : string).
Arguments Json {A} code payload.
Arguments ErrorJson {A} code error.

Definition replyCode {A : Type} (r : Reply A) : Z :=
  match r with
  | Json code _ => code
  | ErrorJson code _ => code
  end.

(** The collaborators as one request observes them.  [queryError] is the
    message of the error with which the request's read of the database
    rejects (an identifier that does not cast, a lost connection), if it
    does; [saveError] likewise for its write. *)
Record ApiEnv := {
  queryError : option string;
  saveError : option string;
  newObjectId : string;          (* the identifier given to a new document *)
  validationMessage : string;    (* the message of a schema validation error *)
  duplicateMessage : string;     (* the message of a unique index violation *)
  cryptoMessage : string;        (* the message of bcrypt refusing its arguments *)
  bcryptSalt : string            (* the salt bcrypt draws *)
}.

(** *** Chat history, [GET /api/rooms/:id/messages] *)

(** A user reference populated with ['username']. *)
Record PopulatedUser := { puId : UserId; puUsername : string }.

(** A message of the history, its author populated ([null] when the user
    does not exist). *)
Record HistoryEntry := {
  hId : nat;
  hRoom : RoomId;
  hUser : option PopulatedUser;
  hMessage : string;
  hTimestamp : Z
}.

Definition populateUser (usersDb : gmap UserId string) (id : UserId)
  : option PopulatedUser :=
  (fun name => {| puId := id; puUsername := name |}) <$> usersDb !! id.

Definition populateMessage (usersDb : gmap UserId string) (doc : MessageDoc)
  : HistoryEntry :=
  {| hId := _id doc; hRoom := room doc;
     hUser := populateUser usersDb (user doc);
     hMessage := message doc; hTimestamp := timestamp doc |}.

(** [sort({ timestamp: 1 })]: ascending; documents with equal timestamps
    keep their order in the collection. *)
Fixpoint insertByTimestamp (doc : MessageDoc) (l : list MessageDoc)
  : list MessageDoc :=
  match l with
  | [] => [doc]
  | x :: l' =>
      if timestamp doc <=? timestamp x then doc :: x :: l'
      else x :: insertByTimestamp doc l'
  end.

Definition sortByTimestamp (l : list MessageDoc) : list MessageDoc :=
  foldr insertByTimestamp [] l.

(** The timestamps never decrease along the list. *)
Fixpoint ascending (ts : list Z) : Prop :=
  match ts with
  | [] => True
  | t :: rest => (forall t', t' ∈ rest -> t <= t') /\ ascending rest
  end.

(** [Message.find({ room })] *)
Definition messagesOfRoom (roomId : RoomId) (docs : list MessageDoc)
  : list MessageDoc :=
  filter (fun doc => room doc = roomId) docs.

(** [Message.find({ room }).populate('user', 'username').sort({ timestamp: 1 })] *)
Definition findMessages (σ : Server) (roomId : RoomId) : list HistoryEntry :=
  populateMessage (userCollection σ)
    <$> sortByTimestamp (messagesOfRoom roomId (messageCollection σ)).

(** The handler of the route. *)
Definition getMessages (ε : ApiEnv) (σ : Server) (roomId : RoomId)
  : Reply (list HistoryEntry) :=
  match queryError ε with
  | Some msg => ErrorJson 500 msg
  | None => Json 200 (findMessages σ roomId)
  end.

(** *** Rooms: [POST /api/rooms], [GET /api/rooms], [POST /api/rooms/:id/verify-pin] *)

(** A document of the Room collection. *)
Record RoomRecord := {
  rId : string;
  rName : option string;
  rVideoUrl : option string;
  rIsLocalFile : bool;
  rLocalFilePath : option string;
  rPin : string;
  rCreator : UserId
}.

(** The body of a create request, its fields of the types the schema
    casts to; [None] is an absent field. *)
Record RoomBody := {
  bName : option string;
  bVideoUrl : option string;
  bIsLocalFile : option bool;
  bLocalFilePath : option string;
  bPin : option string
}.

(** [Room.findById(id)] on the collection. *)
Definition findRoomById (roomDocs : list RoomRecord) (id : string)
  : option RoomRecord :=
  List.find (fun r => String.eqb (rId r) id) roomDocs.

(** The handler of [POST /api/rooms]: the reply and the collection after.
    [pin] is required: a missing or empty PIN fails validation. *)
Definition postRooms (ε : ApiEnv) (creator : UserId) (body : RoomBody)
    (roomDocs : list RoomRecord) : Reply RoomRecord * list RoomRecord :=
  match bPin body with
  | Some (String c p) =>
      match saveError ε with
      | Some msg => (ErrorJson 500 msg, roomDocs)
      | None =>
          let room :=
            {| rId := newObjectId ε;
               rName := bName body;
               rVideoUrl := bVideoUrl body;
               rIsLocalFile := default false (bIsLocalFile body);
               rLocalFilePath := bLocalFilePath body;
               rPin := String c p;
               rCreator := creator |} in
          (Json 201 room, roomDocs ++ [room])
      end
  | _ => (ErrorJson 500 (validationMessage ε), roomDocs)
  end.

(** A room of the list, its creator populated. *)
Record RoomListing := {
  listed : RoomRecord;
  listedCreator : option PopulatedUser
}.

(** The handler of [GET /api/rooms]:
    [Room.find().populate('creator', 'username')], sent whole. *)
Definition getRooms (ε : ApiEnv) (usersDb : gmap UserId string)
    (roomDocs : list RoomRecord) : Reply (list RoomListing) :=
  match queryError ε with
  | Some msg => ErrorJson 500 msg
  | None =>
      Json 200
        ((fun r => {| listed := r;
                      listedCreator := populateUser usersDb (rCreator r) |})
           <$> roomDocs)
  end.

(** [req.body.pin]: a string, or anything else ([undefined], a number, ...). *)
Inductive Submitted :=
| SubmittedString (s : string)
| SubmittedOther.

(** [room.pin !== req.body.pin] is false. *)
Definition pinMatches (stored : string) (pin : Submitted) : bool :=
  match pin with
  | SubmittedString s => String.eqb stored s
  | SubmittedOther => false
  end.

(** [{ success: true, videoUrl, isLocalFile }] *)
Record Granted := {
  success : bool;
  grantedVideoUrl : option string;
  grantedIsLocalFile : bool
}.

(** The handler of [POST /api/rooms/:id/verify-pin]. *)
Definition verifyPin (ε : ApiEnv) (roomDocs : list RoomRecord) (id : string)
    (pin : Submitted) : Reply Granted :=
  match queryError ε with
  | Some msg => ErrorJson 500 msg
  | None =>
      match findRoomById roomDocs id with
      | None => ErrorJson 404 "Room not found"
      | Some room =>
          if negb (pinMatches (rPin room) pin) then ErrorJson 403 "Invalid PIN"
          else
            Json 200
              {| success := true;
                 grantedVideoUrl :=
                   if rIsLocalFile room then Some ("/api/stream/" +:+ rId room)
                   else rVideoUrl room;
                 grantedIsLocalFile := rIsLocalFile room |}
      end
  end.

(** The room store as the streaming route sees it. *)
Definition roomDocOf (r : RoomRecord) : Streamer.RoomDoc :=
  {| Streamer.isLocalFile := rIsLocalFile r;
     Streamer.localFilePath := rLocalFilePath r |}.

Definition backendOf (ε : ApiEnv) (jwt : string -> bool)
    (files : string -> option (list Byte.byte)) (roomDocs : list RoomRecord)
  : Streamer.Backend :=
  {| Streamer.jwtVerify := jwt;
     Streamer.roomFindById := fun id =>
       match queryError ε with
       | Some _ => Streamer.Rejected
       | None =>
           match findRoomById roomDocs id with
           | Some r => Streamer.Doc (roomDocOf r)
           | None => Streamer.Null
           end
       end;
     Streamer.fsFile := files |}.

(** *** Accounts: [POST /api/register], [POST /api/login] *)

(** A document of the User collection; [uPassword] is the bcrypt hash. *)
Record UserDoc := {
  uId : UserId;
  uUsername : string;
  uPassword : string
}.

(** bcrypt and jsonwebtoken, as functions. *)
Record Crypto := {
  bcryptHash : string -> string -> string;     (* salt, password *)
  bcryptCompare : string -> string -> bool;    (* password, hash *)
  jwtSign : Decoded -> string
}.

(** [User.findOne({ username })] *)
Definition findUserByName (userDocs : list UserDoc) (name : string)
  : option UserDoc :=
  List.find (fun u => String.eqb (uUsername u) name) userDocs.

(** The handler of [POST /api/register]: the reply and the collection
    after.  A missing password makes [bcrypt.hash] throw; [username] is
    required and unique. *)
Definition register (K : Crypto) (ε : ApiEnv) (username password : option string)
    (userDocs : list UserDoc) : Reply string * list UserDoc :=
  match password with
  | None => (ErrorJson 500 (cryptoMessage ε), userDocs)
  | Some pw =>
      let hashedPassword := bcryptHash K (bcryptSalt ε) pw in
      match username with
      | Some (String c n) =>
          match findUserByName userDocs (String c n) with
          | Some _ => (ErrorJson 500 (duplicateMessage ε), userDocs)
          | None =>
              match saveError ε with
              | Some msg => (ErrorJson 500 msg, userDocs)
              | None =>
                  (Json 201 "User created successfully",
                   userDocs ++ [{| uId := newObjectId ε;
                                   uUsername := String c n;
                                   uPassword := hashedPassword |}])
              end
          end
      | _ => (ErrorJson 500 (validationMessage ε), userDocs)
      end
  end.

(** [req.body.username] as the filter [{ username }] reads it: the body
    is parsed JSON and the route passes the value on unchecked.  A string
    selects the users of that name.  Any other value the query accepts, a
    query operator object such as [{ $ne: .. }], [{ $gt: .. }] or
    [{ $regex: .. }], selects the users whose name the operator accepts.  A
    value that does not cast makes the query reject ([queryError]). *)
Inductive SubmittedName :=
| NameString (s : string)
| NameOperator (accepts : string -> bool).

Definition nameSelects (submitted : SubmittedName) (name : string) : bool :=
  match submitted with
  | NameString s => String.eqb name s
  | NameOperator accepts => accepts name
  end.

(** [User.findOne({ username: req.body.username })]: the first stored user
    the filter selects. *)
Definition findUser (userDocs : list UserDoc) (submitted : SubmittedName)
  : option UserDoc :=
  List.find (fun u => nameSelects submitted (uUsername u)) userDocs.

(** The handler of [POST /api/login]; the payload of a success is the
    token.  A password that is not a string ([None]) makes [bcrypt.compare]
    throw. *)
Definition loginRequest (K : Crypto) (ε : ApiEnv) (username : SubmittedName)
    (password : option string) (userDocs : list UserDoc) : Reply string :=
  match queryError ε with
  | Some msg => ErrorJson 500 msg
  | None =>
      match findUser userDocs username with
      | None => ErrorJson 400 "User not found"
      | Some user =>
          match password with
          | None => ErrorJson 500 (cryptoMessage ε)
          | Some pw =>
              if negb (bcryptCompare K pw (uPassword user))
              then ErrorJson 400 "Invalid password"
              else Json 200 (jwtSign K {| tokenId := uId user;
                                          tokenUsername := uUsername user |})
          end
      end
  end.

(** The handler at a user name submitted as a string. *)
Definition login (K : Crypto) (ε : ApiEnv) (username : string)
    (password : option string) (userDocs : list UserDoc) : Reply string :=
  loginRequest K ε (NameString username) password userDocs.

(** *** Values for concrete runs *)

Definition quietEnv : ApiEnv :=
  {| queryError := None; saveError := None; newObjectId := "id-new";
     validationMessage := "validation failed";
     duplicateMessage := "duplicate key";
     cryptoMessage := "illegal arguments"; bcryptSalt := "salt" |}.

Definition toyCrypto : Crypto :=
  {| bcryptHash := fun salt pw => salt +:+ "$" +:+ pw;
     bcryptCompare := fun pw hash => String.eqb hash ("salt$" +:+ pw);
     jwtSign := fun d => tokenId d +:+ "." +:+ tokenUsername d |}.

Definition demoRooms : list RoomRecord :=
  [{| rId := "r1"; rName := Some "film"; rVideoUrl := None;
      rIsLocalFile := true; rLocalFilePath := Some "/videos/a.mp4";
      rPin := "1234"; rCreator := "u1" |};
   {| rId := "r3"; rName := Some "clip";
      rVideoUrl := Some "https://example.org/clip.mp4";
      rIsLocalFile := false; rLocalFilePath := None;
      rPin := "9999"; rCreator := "u2" |}].

Definition demoUsers : list UserDoc :=
  [{| uId := "u1"; uUsername := "ann"; uPassword := "salt$secret" |}].

End Api.

(** ** Further notions for the streaming route *)
Module StreamerSpec.
Import JS Streamer.

(** The token [authenticateToken] takes from a request: the second word of
    the Authorization header. *)
Definition requestToken (req : Request) : option string :=
  match authorization req with
  | Some h => JS.index (JS.split " "%char h) 1
  | None => None
  end.

(** A Range header written from two numbers, as a client's HTTP stack
    writes it. *)
Definition rangeOf (start end_ : Z) : string :=
  "bytes=" +:+ pretty start +:+ "-" +:+ pretty end_.

(** A suffix range of HTTP: [bytes=-<n>], the last [n] bytes. *)
Definition suffixRange (digits : string) : string :=
  "bytes=-" +:+ digits.

(** The demo backend with a room store that rejects the lookup of an
    identifier that is not an ObjectId, as [Room.findById] does. *)
Definition demoCastBackend : Backend :=
  {| jwtVerify := jwtVerify demoBackend;
     roomFindById := fun r =>
       if String.eqb r "not-an-object-id" then Rejected
       else roomFindById demoBackend r;
     fsFile := fsFile demoBackend |}.

(** The bytes of the file at offsets [start..end_] that exist. *)
Definition fileWindow (content : list Byte.byte) (start end_ : Z)
  : list Byte.byte :=
  take (Z.to_nat (end_ - start + 1)) (drop (Z.to_nat start) content).

End StreamerSpec.

(** ** Further notions for the gateway *)
Module GatewaySpec.
Import Gateway.

(** The room an event names, if it names one. *)
Definition eventRoom (ev : ClientEvent) : option RoomId :=
  match ev with
  | JoinRoom roomId => Some roomId
  | VideoStateChange roomId _ => Some roomId
  | ChatMessage roomId _ _ => Some roomId
  | Disconnect => None
  end.

(** The event is a playback-state-change for room [r]. *)
Definition changesPlayback (ev : ClientEvent) (r : RoomId) : Prop :=
  exists vs, ev = VideoStateChange r vs.

(** The event is a join of room [r]. *)
Definition joins (ev : ClientEvent) (r : RoomId) : Prop := ev = JoinRoom r.

End GatewaySpec.

(** ** Facts about the string primitives *)
Module JSFacts.
Import JS Streamer.

Lemma digit_value c d : digit c = Some d -> d = Z.of_N (N_of_ascii c) - 48.
Proof.
  unfold digit. case_match; [|discriminate]. by intros [= <-].
Qed.

Lemma parseDigits_allDigits s : forall acc,
  allDigits s = true -> parseDigits (Some acc) s = Some (decimalFrom acc s).
Proof.
  induction s as [|c s IH]; intros acc Hd; [done|].
  cbn [allDigits] in Hd. cbn [parseDigits decimalFrom].
  destruct (digit c) as [d|] eqn:Hc; [|discriminate].
  rewrite (digit_value _ _ Hc). by apply IH.
Qed.

Lemma decimalFrom_nonneg s : forall acc,
  allDigits s = true -> 0 <= acc -> 0 <= decimalFrom acc s.
Proof.
  induction s as [|c s IH]; intros acc Hd Hacc; [done|].
  cbn [allDigits] in Hd. cbn [decimalFrom].
  destruct (digit c) as [d|] eqn:Hc; [|discriminate].
  apply IH; [done|].
  unfold digit in Hc. case_match; [|discriminate]. lia.
Qed.

Lemma decimalValue_nonneg s : allDigits s = true -> 0 <= decimalValue s.
Proof. intros; by apply decimalFrom_nonneg. Qed.

(** [parseInt] reads a non-empty digit string as the number it denotes. *)
Lemma parseInt_digits s :
  allDigits s = true -> s <> EmptyString ->
  parseInt s = Some (decimalValue s).
Proof.
  destruct s as [|c s]; [done|]. intros Hd _.
  cbn [allDigits] in Hd.
  destruct (digit c) as [d|] eqn:Hc; [|discriminate].
  unfold decimalValue. cbn [decimalFrom].
  rewrite <- (parseDigits_allDigits s _ Hd).
  destruct c as [[] [] [] [] [] [] [] []]; try discriminate Hc; reflexivity.
Qed.

Lemma split_without sep s : occurs sep s = false -> split sep s = [s].
Proof.
  induction s as [|c s IH]; [done|]. cbn [occurs split].
  intros [Hc Hs]%orb_false_iff. rewrite Hc, (IH Hs). done.
Qed.

Lemma split_at sep a b :
  occurs sep a = false -> split sep (a +:+ String sep b) = a :: split sep b.
Proof.
  induction a as [|c a IH]; simpl.
  - intros _. by rewrite Ascii.eqb_refl.
  - intros [Hc Ha]%orb_false_iff. rewrite Hc, (IH Ha). done.
Qed.

Lemma allDigits_no_dash s : allDigits s = true -> occurs "-"%char s = false.
Proof.
  induction s as [|c s IH]; [done|]. cbn [allDigits occurs].
  destruct (digit c) as [d|] eqn:Hc; [|discriminate].
  intros Hs. rewrite (IH Hs), orb_false_r.
  destruct c as [[] [] [] [] [] [] [] []]; try discriminate Hc; reflexivity.
Qed.

(** The parts of a well-formed header are its two digit strings. *)
Lemma rangeParts_wellFormed ds de :
  allDigits ds = true -> allDigits de = true ->
  rangeParts (rangeHeader ds de) = [ds; de].
Proof.
  intros Hs He. unfold rangeParts, rangeHeader.
  change (removeFirst "bytes=" ("bytes=" +:+ ds +:+ "-" +:+ de))
    with (ds +:+ String "-"%char de).
  rewrite split_at by by apply allDigits_no_dash.
  rewrite split_without by by apply allDigits_no_dash. done.
Qed.

Lemma rangeStart_wellFormed ds de :
  allDigits ds = true -> ds <> EmptyString -> allDigits de = true ->
  rangeStart (rangeHeader ds de) = Some (decimalValue ds).
Proof.
  intros Hs Hne He. unfold rangeStart.
  rewrite rangeParts_wellFormed by done.
  unfold parseIntAt, index; cbn [lookup list_lookup].
  by apply parseInt_digits.
Qed.

Lemma rangeEnd_wellFormed ds de fileSize :
  allDigits ds = true -> allDigits de = true ->
  rangeEnd (rangeHeader ds de) fileSize = Some (requestedEnd de fileSize).
Proof.
  intros Hs He. unfold rangeEnd.
  rewrite rangeParts_wellFormed by done.
  unfold parseIntAt, index; cbn [lookup list_lookup].
  destruct de as [|c de]; [done|]. cbn [truthy requestedEnd].
  by apply parseInt_digits.
Qed.

End JSFacts.

(** ** The streaming route: what a request is answered with *)
Module StreamerFacts.
Import JS Streamer JSFacts.

Lemma getStream_authenticated B req :
  authenticated B req -> getStream B req = streamHandler B req.
Proof.
  intros (h & tok & Hh & Htok & Htruthy & Hok).
  unfold getStream, authenticateToken.
  rewrite Hh, Htok, Htruthy. cbn [negb from_option id]. by rewrite Hok.
Qed.

Lemma truthy_rangeHeader ds de : truthy (Some (rangeHeader ds de)) = true.
Proof. reflexivity. Qed.

(** The handler up to the point where the file's size is known. *)
Lemma streamHandler_servesFile B req content :
  servesFile B req content ->
  streamHandler B req =
    let fileSize := Z.of_nat (length content) in
    if truthy (range req) then
      let r := default EmptyString (range req) in
      match createReadStream content (rangeStart r) (rangeEnd r fileSize) with
      | None => streamingError
      | Some file =>
          {| status := 206;
             headers :=
               [("Content-Range",
                 HStr (contentRange (rangeStart r) (rangeEnd r fileSize) fileSize));
                ("Accept-Ranges", HStr "bytes");
                ("Content-Length",
                 HNum (add (sub (rangeEnd r fileSize) (rangeStart r)) (Some 1)));
                ("Content-Type", HStr "video/mp4")];
             body := Bytes file |}
      end
    else
      {| status := 200;
         headers := [("Content-Length", HNum (Some fileSize));
                     ("Content-Type", HStr "video/mp4")];
         body := Bytes content |}.
Proof.
  intros (room & path & Hroom & Hlocal & Hpath & Hne & Hfile).
  unfold streamHandler. rewrite Hroom, Hlocal, Hpath.
  destruct path as [|c path]; [done|].
  cbn [truthy negb orb from_option id]. by rewrite Hfile.
Qed.

(** A well-formed header whose window is not reversed is answered with
    206 and the window as parsed, wherever it lies. *)
Lemma streamHandler_ranged B req content ds de :
  servesFile B req content ->
  allDigits ds = true -> ds <> EmptyString -> allDigits de = true ->
  range req = Some (rangeHeader ds de) ->
  decimalValue ds <= requestedEnd de (Z.of_nat (length content)) ->
  streamHandler B req =
    let fileSize := Z.of_nat (length content) in
    let start := decimalValue ds in
    let end_ := requestedEnd de fileSize in
    {| status := 206;
       headers :=
         [("Content-Range",
           HStr ("bytes " +:+ pretty start +:+ "-" +:+ pretty end_
                   +:+ "/" +:+ pretty fileSize));
          ("Accept-Ranges", HStr "bytes");
          ("Content-Length", HNum (Some (end_ - start + 1)));
          ("Content-Type", HStr "video/mp4")];
       body := Bytes (take (Z.to_nat (end_ - start + 1))
                        (drop (Z.to_nat start) content)) |}.
Proof.
  intros Hserve Hs Hne He Hrange Hle.
  rewrite (streamHandler_servesFile _ _ _ Hserve), Hrange.
  cbv zeta. rewrite truthy_rangeHeader. cbn [from_option id].
  rewrite rangeStart_wellFormed, rangeEnd_wellFormed by done.
  pose proof (decimalValue_nonneg ds Hs) as H0.
  unfold createReadStream.
  rewrite (proj2 (Z.leb_le 0 (decimalValue ds))) by done.
  rewrite (proj2 (Z.leb_le 0 (requestedEnd de _))) by lia.
  rewrite (proj2 (Z.leb_le (decimalValue ds) (requestedEnd de _))) by done.
  reflexivity.
Qed.

(** A header that is present and not empty never gets the 200 answer. *)
Lemma streamHandler_range_present B req content :
  servesFile B req content -> truthy (range req) = true ->
  status (streamHandler B req) = 206 \/ status (streamHandler B req) = 500.
Proof.
  intros Hserve Hr. rewrite (streamHandler_servesFile _ _ _ Hserve).
  cbv zeta. rewrite Hr.
  destruct (createReadStream _ _ _); [by left | by right].
Qed.

Lemma demo_authenticated room r : authenticated demoBackend (demoRequest room r).
Proof. exists "Bearer good", "good". by repeat split. Qed.

Lemma demo_servesFile r : servesFile demoBackend (demoRequest "r1" r) demoFile.
Proof.
  exists {| isLocalFile := true; localFilePath := Some "/videos/a.mp4" |},
    "/videos/a.mp4".
  by repeat split.
Qed.

(** *** The start of the window (claim C6) *)

(** C6, as stated, fails: on the 1000-byte file the header
    [bytes=5000-6000] is answered with 206 and
    [Content-Range: bytes 5000-6000/1000]; the start the route uses is
    5000, outside [0, 999]. *)
Lemma range_start_beyond_file_not_clamped :
  let req := demoRequest "r1" (Some "bytes=5000-6000") in
  wellFormedRange "bytes=5000-6000" /\
  Z.of_nat (length demoFile) = 1000 /\
  status (getStream demoBackend req) = 206 /\
  header "Content-Range" (getStream demoBackend req)
    = Some (HStr "bytes 5000-6000/1000") /\
  rangeStart "bytes=5000-6000" = Some 5000 /\
  ~ startWithinFile "bytes=5000-6000" 1000.
Proof.
  cbv zeta. split; [|split; [|split; [|split; [|split]]]].
  - exists "5000", "6000". by repeat split.
  - reflexivity.
  - reflexivity.
  - reflexivity.
  - reflexivity.
  - intros (s & Hs & Hb). vm_compute in Hs. injection Hs as <-. lia.
Qed.

(** C6, amended: for a well-formed header [bytes=<start>-<end?>] whose
    numbers are safe integers, the start position the route uses is the
    submitted start itself, not clamped.  It lies in [0, fileSize-1]
    exactly when the submitted start is at most [fileSize-1], and whenever
    it does not exceed the end of the window the response is 206 with that
    start in Content-Range. *)
Theorem range_start_is_submitted_start B req content ds de :
  authenticated B req -> servesFile B req content ->
  allDigits ds = true -> ds <> EmptyString -> allDigits de = true ->
  range req = Some (rangeHeader ds de) ->
  let fileSize := Z.of_nat (length content) in
  let start := decimalValue ds in
  let end_ := requestedEnd de fileSize in
  start <= maxSafeInteger -> end_ <= maxSafeInteger ->
  rangeStart (rangeHeader ds de) = Some start /\
  0 <= start /\
  (startWithinFile (rangeHeader ds de) fileSize <-> start <= fileSize - 1) /\
  (start <= end_ ->
     status (getStream B req) = 206 /\
     header "Content-Range" (getStream B req)
       = Some (HStr ("bytes " +:+ pretty start +:+ "-" +:+ pretty end_
                       +:+ "/" +:+ pretty fileSize))).
Proof.
  intros Hauth Hserve Hs Hne He Hrange fileSize start end_ _ _.
  pose proof (rangeStart_wellFormed ds de Hs Hne He) as Hstart.
  pose proof (decimalValue_nonneg ds Hs) as H0.
  split; [done|]. split; [done|]. split.
  - unfold startWithinFile. rewrite Hstart. split.
    + intros (s & [= <-] & Hb). subst start. lia.
    + intros Hle. exists start. split; [done|]. subst start. lia.
  - intros Hle. rewrite (getStream_authenticated _ _ Hauth).
    rewrite (streamHandler_ranged _ _ _ _ _ Hserve Hs Hne He Hrange Hle).
    by split.
Qed.

Lemma range_start_is_submitted_start_witness :
  let req := demoRequest "r1" (Some "bytes=5000-6000") in
  rangeStart "bytes=5000-6000" = Some 5000 /\
  0 <= 5000 /\
  (startWithinFile "bytes=5000-6000" 1000 <-> 5000 <= 1000 - 1) /\
  (5000 <= 6000 ->
     status (getStream demoBackend req) = 206 /\
     header "Content-Range" (getStream demoBackend req)
       = Some (HStr "bytes 5000-6000/1000")).
Proof.
  exact (range_start_is_submitted_start demoBackend
           (demoRequest "r1" (Some "bytes=5000-6000")) demoFile "5000" "6000"
           (demo_authenticated _ _) (demo_servesFile _)
           eq_refl ltac:(discriminate) eq_refl eq_refl
           ltac:(vm_compute; discriminate) ltac:(vm_compute; discriminate)).
Defined.

(** With the end omitted, a start beyond the file makes the window
    reversed: [createReadStream] throws and the answer is 500. *)
Example range_start_beyond_file_open_ended :
  rangeStart "bytes=5000-" = Some 5000 /\
  rangeEnd "bytes=5000-" 1000 = Some 999 /\
  status (getStream demoBackend (demoRequest "r1" (Some "bytes=5000-"))) = 500.
Proof. by repeat split. Qed.

(** *** Partial content (claim C7) *)

(** C7: on a local-file room whose file has [fileSize] bytes, a well-formed
    header [bytes=start-end] with [0 <= start <= end <= fileSize-1] ([end]
    standing for [fileSize-1] when omitted) is answered with status 206,
    [Content-Range: bytes start-end/fileSize], [Accept-Ranges: bytes],
    [Content-Length] equal to [end-start+1], and a body that is exactly
    the bytes of the file at offsets [start..end]. *)
Theorem range_request_partial_content B req content ds de :
  authenticated B req -> servesFile B req content ->
  allDigits ds = true -> ds <> EmptyString -> allDigits de = true ->
  range req = Some (rangeHeader ds de) ->
  let fileSize := Z.of_nat (length content) in
  let start := decimalValue ds in
  let end_ := requestedEnd de fileSize in
  start <= end_ <= fileSize - 1 ->
  exists window,
    getStream B req =
      {| status := 206;
         headers :=
           [("Content-Range",
             HStr ("bytes " +:+ pretty start +:+ "-" +:+ pretty end_
                     +:+ "/" +:+ pretty fileSize));
            ("Accept-Ranges", HStr "bytes");
            ("Content-Length", HNum (Some (end_ - start + 1)));
            ("Content-Type", HStr "video/mp4")];
         body := Bytes window |} /\
    0 <= start /\
    Z.of_nat (length window) = end_ - start + 1 /\
    forall i, (i < length window)%nat ->
      window !! i = content !! (Z.to_nat start + i)%nat.
Proof.
  intros Hauth Hserve Hs Hne He Hrange fileSize start end_ [Hle Hend].
  pose proof (decimalValue_nonneg ds Hs) as H0.
  eexists. split; [|split; [done|]].
  - rewrite (getStream_authenticated _ _ Hauth).
    by rewrite (streamHandler_ranged _ _ _ _ _ Hserve Hs Hne He Hrange Hle).
  - cbv zeta. fold fileSize start end_. split.
    + rewrite length_take, length_drop. lia.
    + intros i Hi. rewrite length_take, length_drop in Hi.
      rewrite lookup_take_lt by lia. by rewrite lookup_drop.
Qed.

Lemma range_request_partial_content_witness :
  exists window,
    getStream demoBackend (demoRequest "r1" (Some "bytes=0-99")) =
      {| status := 206;
         headers :=
           [("Content-Range", HStr "bytes 0-99/1000");
            ("Accept-Ranges", HStr "bytes");
            ("Content-Length", HNum (Some 100));
            ("Content-Type", HStr "video/mp4")];
         body := Bytes window |} /\
    0 <= 0 /\
    Z.of_nat (length window) = 100 /\
    forall i, (i < length window)%nat ->
      window !! i = demoFile !! (Z.to_nat 0 + i)%nat.
Proof.
  exact (range_request_partial_content demoBackend
           (demoRequest "r1" (Some "bytes=0-99")) demoFile "0" "99"
           (demo_authenticated _ _) (demo_servesFile _)
           eq_refl ltac:(discriminate) eq_refl eq_refl
           ltac:(vm_compute; split; discriminate)).
Defined.

(** The second example of the specification: [bytes=500-] on the same
    file. *)
Example range_request_open_ended :
  let r := getStream demoBackend (demoRequest "r1" (Some "bytes=500-")) in
  status r = 206 /\
  header "Content-Range" r = Some (HStr "bytes 500-999/1000") /\
  header "Content-Length" r = Some (HNum (Some 500)) /\
  body r = Bytes (replicate 500 Byte.x42).
Proof. by repeat split. Qed.

(** *** The full response (claim C8) *)

(** C8, as stated, fails: [0-99] is not of the form
    [bytes=<start>-<end?>], yet it is answered with 206 and the first 100
    bytes, not with the full response. *)
Lemma malformed_range_not_full_response :
  let req := demoRequest "r1" (Some "0-99") in
  ~ wellFormedRange "0-99" /\
  servesFile demoBackend req demoFile /\
  status (getStream demoBackend req) = 206 /\
  ~ fullResponse demoFile (getStream demoBackend req).
Proof.
  cbv zeta. split; [|split; [|split]].
  - intros (ds & de & _ & _ & _ & H). discriminate H.
  - apply demo_servesFile.
  - reflexivity.
  - intros (Hst & _). vm_compute in Hst. discriminate Hst.
Qed.

(** C8, amended: on a valid local-file room, a request whose Range header
    is absent or empty gets the full response: status 200, Content-Length
    equal to the file's size and the entire file as body.  A header that
    is present and not empty, malformed or not, never gets it. *)
Theorem full_response_without_range B req content :
  authenticated B req -> servesFile B req content ->
  (range req = None \/ range req = Some EmptyString ->
     fullResponse content (getStream B req)) /\
  (truthy (range req) = true -> status (getStream B req) <> 200).
Proof.
  intros Hauth Hserve. rewrite (getStream_authenticated _ _ Hauth). split.
  - intros Hr. rewrite (streamHandler_servesFile _ _ _ Hserve). cbv zeta.
    assert (truthy (range req) = false) as -> by (by destruct Hr as [-> | ->]).
    by repeat split.
  - intros Hr.
    destruct (streamHandler_range_present _ _ _ Hserve Hr) as [-> | ->]; lia.
Qed.

Lemma full_response_without_range_witness :
  (range (demoRequest "r1" None) = None \/
   range (demoRequest "r1" None) = Some EmptyString ->
     fullResponse demoFile (getStream demoBackend (demoRequest "r1" None))) /\
  (truthy (range (demoRequest "r1" None)) = true ->
     status (getStream demoBackend (demoRequest "r1" None)) <> 200).
Proof.
  exact (full_response_without_range demoBackend (demoRequest "r1" None)
           demoFile (demo_authenticated _ _) (demo_servesFile _)).
Defined.

(** *** Not found (claim C9) *)

(** C9, as stated, fails: room ["r2"] is a local-file room with a file
    path, its file is missing from storage, and the answer is 500. *)
Lemma missing_file_answers_500 :
  let req := demoRequest "r2" None in
  authenticated demoBackend req /\
  fileMissing demoBackend req /\
  status (getStream demoBackend req) = 500 /\
  status (getStream demoBackend req) <> 404.
Proof.
  cbv zeta. split; [apply demo_authenticated|]. split; [|by split].
  exists {| isLocalFile := true; localFilePath := Some "/videos/gone.mp4" |},
    "/videos/gone.mp4".
  by repeat split.
Qed.

(** C9, amended: an authenticated streaming request is answered with 404
    exactly when the room lookup resolves to no room, the room is not a
    local-file room, or the room has no file path; when the lookup itself
    rejects (as it does for an identifier that is not an ObjectId) or the
    file is missing from storage, the answer is 500. *)
Theorem not_found_iff_room_invalid B req :
  authenticated B req ->
  (status (getStream B req) = 404 <-> roomInvalid B req) /\
  (roomFindById B (roomId req) = Rejected -> status (getStream B req) = 500) /\
  (fileMissing B req -> status (getStream B req) = 500).
Proof.
  intros Hauth. rewrite (getStream_authenticated _ _ Hauth).
  unfold roomInvalid, fileMissing, streamHandler. split; [|split].
  - destruct (roomFindById B (roomId req)) as [| |room] eqn:Hroom.
    + split; [discriminate|]. intros [? | (? & ? & _)]; discriminate.
    + split; [by left|done].
    + destruct (isLocalFile room) eqn:Hlocal; cbn [negb orb].
      2:{ split; [|done]. intros _. right. exists room. auto. }
      destruct (truthy (localFilePath room)) eqn:Hpath; cbn [negb].
      2:{ split; [|done]. intros _. right. exists room. auto. }
      split.
      * intros Hst. exfalso. revert Hst.
        destruct (fsFile B _); [|discriminate].
        destruct (truthy (range req)); [|discriminate].
        cbv zeta. destruct (createReadStream _ _ _); discriminate.
      * intros [? | (room' & [= <-] & [? | ?])]; congruence.
  - by intros ->.
  - intros (room & path & -> & -> & -> & Hne & Hfile).
    destruct path as [|c path]; [done|].
    cbn [truthy negb orb from_option id]. by rewrite Hfile.
Qed.

Lemma not_found_iff_room_invalid_witness :
  status (getStream demoBackend (demoRequest "r3" None)) = 404 /\
  status (getStream demoBackend (demoRequest "65a1b2c3d4e5f60718293a4b" None)) = 404 /\
  status (getStream StreamerSpec.demoCastBackend
            (demoRequest "not-an-object-id" None)) = 500.
Proof.
  split; [|split].
  - destruct (not_found_iff_room_invalid demoBackend (demoRequest "r3" None)
                (demo_authenticated _ _)) as (Hiff & _).
    apply Hiff. right.
    exists {| isLocalFile := false; localFilePath := None |}.
    split; [reflexivity | by left].
  - destruct (not_found_iff_room_invalid demoBackend
                (demoRequest "65a1b2c3d4e5f60718293a4b" None)
                (demo_authenticated _ _)) as (Hiff & _).
    apply Hiff. by left.
  - destruct (not_found_iff_room_invalid StreamerSpec.demoCastBackend
                (demoRequest "not-an-object-id" None)) as (_ & Hrejected & _).
    + exists "Bearer good", "good". by repeat split.
    + exact (Hrejected eq_refl).
Defined.

End StreamerFacts.

(** ** The gateway: registry bookkeeping *)
Module GatewayFacts.
Import Gateway.

(** *** The effect of each handler on the registry and on the rooms *)

Lemma rooms_joinRoom c roomId σ r :
  rooms (fst (joinRoom c roomId σ)) !! r =
    if decide (roomId = r)
    then Some {| videoState := from_option videoState defaultState (rooms σ !! roomId);
                 users := sessionMembers σ roomId ∪ {[c]} |}
    else rooms σ !! r.
Proof.
  unfold joinRoom, sessionMembers. cbn.
  destruct (rooms σ !! roomId) as [s|] eqn:Hs; cbn.
  - rewrite lookup_alter. case_decide; [subst|done]. by rewrite Hs.
  - rewrite lookup_alter. case_decide; [subst|].
    + by rewrite lookup_insert_eq.
    + by rewrite lookup_insert_ne.
Qed.

Lemma roomMembers_joinRoom c roomId σ r :
  roomMembers (fst (joinRoom c roomId σ)) r =
    if decide (roomId = r) then roomMembers σ r ∪ {[c]} else roomMembers σ r.
Proof.
  assert (adapter (fst (joinRoom c roomId σ))
          = <[roomId := roomMembers σ roomId ∪ {[c]}]> (adapter σ)) as Ha.
  { unfold joinRoom. cbn. by destruct (rooms σ !! roomId). }
  unfold roomMembers at 1. rewrite Ha. case_decide; [subst|].
  - by rewrite lookup_insert_eq.
  - by rewrite lookup_insert_ne.
Qed.

Lemma dropUser_members c s :
  from_option users ∅ (dropUser c s) = users s ∖ {[c]}.
Proof.
  unfold dropUser. case_decide as Hsize; [|done].
  apply size_empty_iff in Hsize. cbn. by apply leibniz_equiv in Hsize.
Qed.

Lemma dropUser_nonempty c s s' : dropUser c s = Some s' -> users s' ≠ ∅.
Proof.
  unfold dropUser. case_decide as Hsize; [done|]. intros [= <-]. cbn.
  intros Hempty. apply Hsize. rewrite Hempty. apply size_empty.
Qed.

Lemma rooms_disconnect c σ r :
  rooms (fst (disconnect c σ)) !! r = rooms σ !! r ≫= dropUser c.
Proof. unfold disconnect. cbn. apply lookup_omap. Qed.

Lemma roomMembers_disconnect c σ r :
  roomMembers (fst (disconnect c σ)) r = roomMembers σ r ∖ {[c]}.
Proof.
  unfold disconnect, roomMembers. cbn. rewrite lookup_fmap.
  destruct (adapter σ !! r); cbn; [done|]. by rewrite difference_disjoint_L.
Qed.

Lemma rooms_videoStateChange c roomId vs σ r :
  rooms (fst (videoStateChange c roomId vs σ)) !! r =
    if decide (roomId = r)
    then (fun s => {| videoState := vs; users := users s |}) <$> rooms σ !! r
    else rooms σ !! r.
Proof.
  unfold videoStateChange. case_decide; [subst|].
  - destruct (rooms σ !! r) as [s|] eqn:Hs; cbn; [|done].
    by rewrite lookup_insert_eq.
  - destruct (rooms σ !! roomId) as [s|]; cbn; [|done].
    by rewrite lookup_insert_ne.
Qed.

Lemma adapter_videoStateChange c roomId vs σ :
  adapter (fst (videoStateChange c roomId vs σ)) = adapter σ.
Proof. unfold videoStateChange. by destruct (rooms σ !! roomId). Qed.

Lemma app_two {A} (l : list A) (x y : A) : (l ++ [x]) ++ [y] = l ++ [x; y].
Proof. by rewrite <- app_assoc. Qed.

(** Runs the monadic operations of a handler on an explicit state. *)
Ltac run_monad :=
  cbv [mbind mret M_bind M_ret throw getServer newMessageDoc perform deref
       ioToEmit];
  cbn.

(** The chat handler, case by case: the token, the write, the read back
    and the author decide what is stored and what is emitted. *)
Lemma chatMessage_cases ε roomId text token σ log :
  chatMessage ε roomId text token (σ, log) =
    (Return tt,
     match token ≫= jwtVerify ε with
     | None => (σ, log ++ [chatError])
     | Some decoded =>
         if saveRejects ε then (σ, log ++ [chatError])
         else
           let doc := chatDoc σ ε roomId (tokenId decoded) text in
           let σ' := setMessages (messageCollection σ ++ [doc]) σ in
           if findRejects ε then (σ', log ++ [Saved doc; chatError])
           else
             match userCollection σ !! tokenId decoded with
             | Some author =>
                 (σ', log ++ [Saved doc;
                              Emit (roomMembers σ roomId)
                                (ChatBroadcast text author (now ε))])
             | None => (σ', log ++ [Saved doc; chatError])
             end
     end).
Proof.
  unfold chatMessage, tryCatch, verify, chatError.
  destruct token as [t|]; [|done]. cbn [mbind option_bind].
  destruct (jwtVerify ε t) as [decoded|]; [|done].
  unfold save, findByIdPopulate.
  destruct (saveRejects ε); [done|].
  destruct (findRejects ε); run_monad; [by rewrite app_two|].
  rewrite list_lookup_middle by done. run_monad.
  destruct (userCollection σ !! tokenId decoded); run_monad; by rewrite app_two.
Qed.

Lemma handle_chat c roomId text token ε σ :
  handle (input c (ChatMessage roomId text token) ε) σ =
    snd (chatMessage ε roomId text token (σ, [])).
Proof. done. Qed.

Lemma rooms_chat c roomId text token ε σ :
  rooms (fst (handle (input c (ChatMessage roomId text token) ε) σ)) = rooms σ /\
  adapter (fst (handle (input c (ChatMessage roomId text token) ε) σ)) = adapter σ.
Proof.
  rewrite handle_chat, chatMessage_cases. cbn.
  destruct (token ≫= jwtVerify ε); [|done].
  destruct (saveRejects ε); [done|]. cbv zeta.
  destruct (findRejects ε); [done|].
  by destruct (userCollection σ !! _).
Qed.

Lemma roomMembers_handle i σ r :
  roomMembers (fst (handle i σ)) r = joinedAfter i r (roomMembers σ r).
Proof.
  destruct i as [c [roomId|roomId vs|roomId text token|] ε].
  - apply roomMembers_joinRoom.
  - unfold handle, joinedAfter, roomMembers; cbn [event conn].
    by rewrite adapter_videoStateChange.
  - unfold roomMembers, joinedAfter; cbn [event].
    destruct (rooms_chat c roomId text token ε σ) as [_ Ha].
    unfold input in Ha. by rewrite Ha.
  - apply roomMembers_disconnect.
Qed.

Lemma sessionMembers_handle i σ r :
  sessionMembers (fst (handle i σ)) r = joinedAfter i r (sessionMembers σ r).
Proof.
  destruct i as [c [roomId|roomId vs|roomId text token|] ε];
    unfold sessionMembers, joinedAfter; cbn [event conn].
  - unfold handle; cbn [event conn]. rewrite rooms_joinRoom.
    case_decide; [subst; cbn|]; done.
  - unfold handle; cbn [event conn]. rewrite rooms_videoStateChange.
    case_decide; [|done]. by destruct (rooms σ !! r).
  - destruct (rooms_chat c roomId text token ε σ) as [Hr _].
    unfold input in Hr. by rewrite Hr.
  - unfold handle; cbn [event conn]. rewrite rooms_disconnect.
    destruct (rooms σ !! r) as [s|]; cbn; [apply dropUser_members|].
    by rewrite difference_disjoint_L.
Qed.

Lemma nonempty_handle i σ r s :
  (forall s0, rooms σ !! r = Some s0 -> users s0 ≠ ∅) ->
  rooms (fst (handle i σ)) !! r = Some s -> users s ≠ ∅.
Proof.
  intros Hne.
  destruct i as [c [roomId|roomId vs|roomId text token|] ε].
  - unfold handle; cbn [event conn]. rewrite rooms_joinRoom.
    case_decide; [|apply Hne]. intros [= <-]. cbn. set_solver.
  - unfold handle; cbn [event conn]. rewrite rooms_videoStateChange.
    case_decide; [|apply Hne].
    destruct (rooms σ !! r) as [s0|]; cbn; [|done].
    intros [= <-]. cbn. by apply Hne.
  - destruct (rooms_chat c roomId text token ε σ) as [Hr _].
    unfold input in Hr. rewrite Hr. apply Hne.
  - unfold handle; cbn [event conn]. rewrite rooms_disconnect.
    destruct (rooms σ !! r) as [s0|]; cbn; [|done]. apply dropUser_nonempty.
Qed.

(** *** The invariant of the registry *)

Lemma consistent_handle i σ : consistent σ -> consistent (fst (handle i σ)).
Proof.
  intros Hc r. destruct (Hc r) as [Hne Heq]. split.
  - intros s. by apply nonempty_handle.
  - by rewrite roomMembers_handle, sessionMembers_handle, Heq.
Qed.

Lemma consistent_boot usersDb messagesDb : consistent (boot usersDb messagesDb).
Proof.
  intros r. split; [|done]. intros s. unfold boot; cbn [rooms].
  by rewrite lookup_empty.
Qed.

Lemma run_snoc trace i σ : run (trace ++ [i]) σ = fst (handle i (run trace σ)).
Proof. unfold run. by rewrite foldl_snoc. Qed.

Lemma consistent_run trace σ : consistent σ -> consistent (run trace σ).
Proof.
  intros Hc. induction trace as [|i trace IH] using rev_ind; [done|].
  rewrite run_snoc. by apply consistent_handle.
Qed.

(** The members of a session are the connections that joined the room and
    have not disconnected since. *)
Lemma sessionMembers_run trace usersDb messagesDb r :
  sessionMembers (run trace (boot usersDb messagesDb)) r = joined trace r.
Proof.
  induction trace as [|i trace IH] using rev_ind; [done|].
  rewrite run_snoc, sessionMembers_handle, IH.
  unfold joined. by rewrite foldl_snoc.
Qed.

Lemma session_iff_members σ r :
  consistent σ -> is_Some (rooms σ !! r) <-> sessionMembers σ r ≠ ∅.
Proof.
  intros Hc. destruct (Hc r) as [Hne _]. unfold sessionMembers.
  destruct (rooms σ !! r) as [s|]; cbn.
  - split; [intros _; by apply Hne | by eauto].
  - split; [by intros [? ?] | done].
Qed.

(** On a running server the socket.io room of [r] holds the same
    connections. *)
Lemma roomMembers_run trace usersDb messagesDb r :
  roomMembers (run trace (boot usersDb messagesDb)) r = joined trace r.
Proof.
  rewrite <- sessionMembers_run with (usersDb := usersDb) (messagesDb := messagesDb).
  apply consistent_run, consistent_boot.
Qed.

Lemma singleton_leaves c (X : gset ConnId) :
  X = {[c]} -> size (X ∖ {[c]}) = 0%nat.
Proof. intros ->. apply size_empty_iff. by rewrite difference_diag_L. Qed.

(** When the only member of a room disconnects, its session is deleted. *)
Lemma last_member_leaves c ε σ r :
  sessionMembers σ r = {[c]} ->
  rooms (fst (handle (input c Disconnect ε) σ)) !! r = None.
Proof.
  intros Hm. unfold handle; cbn [event conn input]. rewrite rooms_disconnect.
  unfold sessionMembers in Hm.
  destruct (rooms σ !! r) as [s|]; cbn in *; [|done].
  unfold dropUser. rewrite (singleton_leaves _ _ Hm). done.
Qed.

(** *** Joining a room (claim C1) *)

(** C1, as stated, fails: a third viewer joins room ["r"], which is playing
    and has one message of history; the handler emits nothing, so neither
    the playback state nor the history is sent to the caller. *)
Lemma join_sends_nothing_to_caller :
  let σ := run demoTrace demoBoot in
  let out := handle (input "c" (JoinRoom "r") demoEnv) σ in
  videoState <$> rooms σ !! "r" = Some demoPlaying /\
  messageCollection σ = demoHistory /\
  snd out = [] /\
  ~ sentTo "c" (snd out).
Proof.
  cbv zeta. split; [by vm_compute|]. split; [by vm_compute|].
  split; [reflexivity|].
  intros (recipients & ev & Hin & _). by apply elem_of_nil in Hin.
Qed.

(** C1, amended: for every join-room request the gateway registers the
    connection in the room's session, creating one with the default state
    [{isPlaying: false, currentTime: 0}] if none exists, and in the
    socket.io room; it sends nothing to the caller. *)
Theorem join_registers_without_replay c roomId ε σ :
  let out := handle (input c (JoinRoom roomId) ε) σ in
  rooms (fst out) !! roomId =
    Some {| videoState := from_option videoState defaultState (rooms σ !! roomId);
            users := sessionMembers σ roomId ∪ {[c]} |} /\
  roomMembers (fst out) roomId = roomMembers σ roomId ∪ {[c]} /\
  snd out = [] /\
  ~ sentTo c (snd out).
Proof.
  cbv zeta. unfold handle; cbn [event conn input].
  rewrite rooms_joinRoom, roomMembers_joinRoom.
  rewrite !decide_True by done.
  split; [done|]. split; [done|]. split; [done|].
  intros (recipients & ev & Hin & _). by apply elem_of_nil in Hin.
Qed.

(** *** Sessions and member sets (claim C2) *)

(** C2: after every sequence of events, the registry has a session for a
    room iff the set of connections that joined it and have not
    disconnected is non-empty, and that set is the session's member set;
    when the last member leaves the session is deleted, and the next join
    creates the session anew with the default state, whatever the state
    was before. *)
Theorem session_exists_iff_members usersDb messagesDb trace r :
  let σ := run trace (boot usersDb messagesDb) in
  (is_Some (rooms σ !! r) <-> joined trace r ≠ ∅) /\
  (forall s, rooms σ !! r = Some s -> users s = joined trace r) /\
  (forall c ε,
     joined trace r = {[c]} ->
     rooms (fst (handle (input c Disconnect ε) σ)) !! r = None) /\
  (forall c c' ε ε',
     joined trace r = {[c]} ->
     rooms (run [input c Disconnect ε; input c' (JoinRoom r) ε'] σ) !! r =
       Some {| videoState := defaultState; users := {[c']} |}).
Proof.
  cbv zeta. set (σ := run trace (boot usersDb messagesDb)).
  assert (consistent σ) as Hc by apply consistent_run, consistent_boot.
  pose proof (sessionMembers_run trace usersDb messagesDb r) as Hm.
  fold σ in Hm.
  split; [|split; [|split]].
  - rewrite <- Hm. by apply session_iff_members.
  - intros s Hs. rewrite <- Hm. unfold sessionMembers. by rewrite Hs.
  - intros c ε Hj. apply last_member_leaves. by rewrite Hm.
  - intros c c' ε ε' Hj.
    assert (rooms (fst (handle (input c Disconnect ε) σ)) !! r = None) as Hgone.
    { apply last_member_leaves. by rewrite Hm. }
    change (run [input c Disconnect ε; input c' (JoinRoom r) ε'] σ)
      with (fst (joinRoom c' r (fst (handle (input c Disconnect ε) σ)))).
    rewrite rooms_joinRoom, decide_True by done.
    unfold sessionMembers. rewrite Hgone. cbn.
    by rewrite union_empty_l_L.
Qed.

Lemma session_exists_iff_members_witness :
  let σ := run demoSolo demoBoot in
  videoState <$> rooms σ !! "r" = Some demoPlaying /\
  rooms (fst (handle (input "a" Disconnect demoEnv) σ)) !! "r" = None /\
  rooms (run [input "a" Disconnect demoEnv; input "b" (JoinRoom "r") demoEnv] σ)
    !! "r" = Some {| videoState := defaultState; users := {["b"]} |}.
Proof.
  cbv zeta.
  assert (joined demoSolo "r" = {["a"]}) as Hj by by vm_compute.
  destruct (session_exists_iff_members {[ "u1" := "ann" ]} demoHistory
              demoSolo "r") as (_ & _ & Hleave & Hrejoin).
  split; [by vm_compute|]. split.
  - exact (Hleave "a" demoEnv Hj).
  - exact (Hrejoin "a" "b" demoEnv demoEnv Hj).
Defined.

(** *** Chat (claims C4 and C5) *)

(** A chat message whose token verifies, whose document is written and
    whose author is found: the document is saved, then the message is
    emitted to the socket.io room. *)
Lemma chat_success c roomId text t ε decoded author σ :
  jwtVerify ε t = Some decoded ->
  saveRejects ε = false -> findRejects ε = false ->
  userCollection σ !! tokenId decoded = Some author ->
  handle (input c (ChatMessage roomId text (Some t)) ε) σ =
    let doc := chatDoc σ ε roomId (tokenId decoded) text in
    (setMessages (messageCollection σ ++ [doc]) σ,
     [Saved doc;
      Emit (roomMembers σ roomId) (ChatBroadcast text author (now ε))]).
Proof.
  intros Hv Hsave Hfind Hauthor.
  rewrite handle_chat, chatMessage_cases. cbn [mbind option_bind snd].
  by rewrite Hv, Hsave, Hfind, Hauthor.
Qed.

(** C4: for a chat message whose token verifies, whatever is broadcast is
    broadcast after the document has been saved: the save precedes the
    emission in the log and the document is in the collection; the
    emission goes to every member of the room (the connections that joined
    it and have not disconnected), the sender included when it is one, and
    carries the text, the author name resolved from the stored author and
    the stored timestamp.  When the write and the read back succeed and the
    author is found, the message is saved and broadcast. *)
Theorem chat_persisted_then_broadcast usersDb messagesDb trace
    c roomId text t ε decoded :
  jwtVerify ε t = Some decoded ->
  let σ := run trace (boot usersDb messagesDb) in
  let out := handle (input c (ChatMessage roomId text (Some t)) ε) σ in
  let doc := chatDoc σ ε roomId (tokenId decoded) text in
  (forall recipients ev,
     Emit recipients ev ∈ snd out ->
     precedes (Saved doc) (Emit recipients ev) (snd out) /\
     doc ∈ messageCollection (fst out) /\
     recipients = joined trace roomId /\
     (c ∈ joined trace roomId -> c ∈ recipients) /\
     exists author,
       userCollection σ !! user doc = Some author /\
       ev = ChatBroadcast (message doc) author (timestamp doc)) /\
  (saveRejects ε = false -> findRejects ε = false ->
   forall author,
     userCollection σ !! tokenId decoded = Some author ->
     out = (setMessages (messageCollection σ ++ [doc]) σ,
            [Saved doc;
             Emit (joined trace roomId) (ChatBroadcast text author (now ε))])).
Proof.
  intros Hv. cbv zeta.
  rewrite <- (roomMembers_run trace usersDb messagesDb roomId).
  set (σ := run trace (boot usersDb messagesDb)). split.
  - intros recipients ev.
    rewrite handle_chat, chatMessage_cases. cbn [mbind option_bind snd].
    rewrite Hv.
    destruct (saveRejects ε).
    { intros Hin%list_elem_of_singleton. discriminate Hin. }
    cbv zeta. destruct (findRejects ε).
    { cbn [snd app]. rewrite elem_of_cons, list_elem_of_singleton.
      intros [Hin | Hin]; discriminate Hin. }
    destruct (userCollection σ !! tokenId decoded) as [author|] eqn:Hauthor.
    2:{ cbn [snd app]. rewrite elem_of_cons, list_elem_of_singleton.
        intros [Hin | Hin]; discriminate Hin. }
    cbn [fst snd app]. rewrite elem_of_cons, list_elem_of_singleton.
    intros [Hin | Hin]; [discriminate Hin|]. injection Hin as -> ->.
    split; [by exists [], [], []|].
    split; [apply elem_of_app; right; by apply list_elem_of_singleton|].
    split; [done|]. split; [done|]. by exists author.
  - intros Hsave Hfind author Hauthor. by apply chat_success.
Qed.

Lemma chat_persisted_then_broadcast_witness :
  let σ := run demoTrace demoBoot in
  let doc := {| _id := 1; room := "r"; user := "u1"; message := "hi";
                timestamp := now demoEnv |} in
  handle (input "a" (ChatMessage "r" "hi" (Some "good")) demoEnv) σ =
    (setMessages (demoHistory ++ [doc]) σ,
     [Saved doc;
      Emit (joined demoTrace "r") (ChatBroadcast "hi" "ann" (now demoEnv))]) /\
  "a" ∈ joined demoTrace "r".
Proof.
  cbv zeta. split.
  - destruct (chat_persisted_then_broadcast {[ "u1" := "ann" ]} demoHistory
                demoTrace "a" "r" "hi" "good" demoEnv
                {| tokenId := "u1"; tokenUsername := "ann" |} eq_refl)
      as [_ Hsent].
    apply (Hsent eq_refl eq_refl "ann"). by vm_compute.
  - by vm_compute.
Defined.

(** A verified token whose user is not in the User collection: the message
    is saved, the author does not resolve, and nothing is broadcast. *)
Example chat_unknown_author_not_broadcast :
  let σ := run demoTrace (boot ∅ []) in
  let doc := {| _id := 0; room := "r"; user := "u1"; message := "hi";
                timestamp := now demoEnv |} in
  handle (input "a" (ChatMessage "r" "hi" (Some "good")) demoEnv) σ =
    (setMessages [doc] σ, [Saved doc; chatError]).
Proof. by vm_compute. Qed.

(** C5: a chat message whose token is missing or does not verify, or whose
    write to the store fails, leaves the server as it was: nothing is
    saved, nothing is emitted (to the sender or to anyone), the error is
    only logged, the sender stays in its rooms and every later event,
    playback changes included, is handled as if the message had not been
    sent. *)
Theorem chat_failure_is_silent c roomId text token ε σ :
  tokenRejected ε token \/ saveRejects ε = true ->
  let out := handle (input c (ChatMessage roomId text token) ε) σ in
  out = (σ, [chatError]) /\
  messageCollection (fst out) = messageCollection σ /\
  (forall doc, Saved doc ∉ snd out) /\
  (forall recipients ev, Emit recipients ev ∉ snd out) /\
  ~ sentTo c (snd out) /\
  (forall r, roomMembers (fst out) r = roomMembers σ r) /\
  (forall i, handle i (fst out) = handle i σ).
Proof.
  intros Hfail. cbv zeta.
  assert (handle (input c (ChatMessage roomId text token) ε) σ
          = (σ, [chatError])) as ->.
  { rewrite handle_chat, chatMessage_cases. cbn [snd app].
    destruct Hfail as [[-> | (t & -> & Hv)] | Hsave].
    - done.
    - cbn [mbind option_bind]. by rewrite Hv.
    - rewrite Hsave. by destruct (token ≫= jwtVerify ε). }
  cbn [fst snd]. split; [done|]. split; [done|].
  split; [intros doc Hin%list_elem_of_singleton; discriminate Hin|].
  split; [intros ? ? Hin%list_elem_of_singleton; discriminate Hin|].
  split; [|done].
  intros (? & ? & Hin%list_elem_of_singleton & _). discriminate Hin.
Qed.

Lemma chat_failure_is_silent_witness :
  let σ := run demoTrace demoBoot in
  handle (input "a" (ChatMessage "r" "hi" (Some "forged")) demoEnv) σ
    = (σ, [chatError]) /\
  handle (input "a" (ChatMessage "r" "hi" None) demoEnv) σ
    = (σ, [chatError]) /\
  handle (input "a" (ChatMessage "r" "hi" (Some "good")) demoStoreDown) σ
    = (σ, [chatError]).
Proof.
  cbv zeta. split; [|split].
  - apply (chat_failure_is_silent "a" "r" "hi" (Some "forged") demoEnv).
    left. right. by exists "forged".
  - apply (chat_failure_is_silent "a" "r" "hi" None demoEnv).
    left. by left.
  - apply (chat_failure_is_silent "a" "r" "hi" (Some "good") demoStoreDown).
    by right.
Defined.

End GatewayFacts.

(** ** The gateway with its connections: who receives what *)
Module SocketsFacts.
Import Gateway GatewaySpec GatewayFacts Sockets.

Lemma serve_snoc arrivals a σ :
  serve (arrivals ++ [a]) σ = fst (arrive a (serve arrivals σ)).
Proof. unfold serve. by rewrite foldl_snoc. Qed.

Lemma connected_snoc arrivals a :
  connected (arrivals ++ [a]) = connectedAfter a (connected arrivals).
Proof. unfold connected. by rewrite foldl_snoc. Qed.

Lemma members_snoc arrivals a r :
  members (arrivals ++ [a]) r = membersAfter a r (members arrivals r).
Proof. unfold members. by rewrite foldl_snoc. Qed.

Lemma elem_of_ownRoom arrivals r x :
  x ∈ ownRoom arrivals r <-> x = r /\ r ∈ connected arrivals.
Proof.
  unfold ownRoom. case_decide as Hr.
  - rewrite elem_of_singleton. tauto.
  - split; [by intros ?%elem_of_empty | tauto].
Qed.

Lemma roomMembers_connection c σ r :
  roomMembers (fst (connection c σ)) r =
    if decide (c = r) then roomMembers σ r ∪ {[c]} else roomMembers σ r.
Proof.
  unfold connection, socketJoin, roomMembers; cbn [fst adapter setAdapter].
  case_decide; [subst|].
  - by rewrite lookup_insert_eq.
  - by rewrite lookup_insert_ne.
Qed.

(** The socket.io room of [r] after one more arrival. *)
Lemma audience_arrive arrivals a r (M : gset ConnId) :
  match a with
  | Connection c => if decide (c = r) then M ∪ ownRoom arrivals r ∪ {[c]}
                    else M ∪ ownRoom arrivals r
  | Message i => joinedAfter i r (M ∪ ownRoom arrivals r)
  end
  = membersAfter a r M ∪ ownRoom (arrivals ++ [a]) r.
Proof.
  apply set_eq. intros x. destruct a as [c | i]; cbn [membersAfter].
  - case_decide as Hc; [subst c|];
      rewrite !elem_of_union, !elem_of_ownRoom, connected_snoc;
      cbn [connectedAfter]; rewrite ?elem_of_union, ?elem_of_singleton.
    + tauto.
    + split; [tauto|]. intros [? | [-> [? | ?]]]; [tauto|tauto|congruence].
  - unfold joinedAfter.
    destruct (event i) as [r0|r0 vs|r0 text token|] eqn:Hev.
    + case_decide;
        rewrite !elem_of_union, !elem_of_ownRoom, connected_snoc;
        cbn [connectedAfter]; rewrite Hev; tauto.
    + rewrite !elem_of_union, !elem_of_ownRoom, connected_snoc.
      cbn [connectedAfter]. by rewrite Hev.
    + rewrite !elem_of_union, !elem_of_ownRoom, connected_snoc.
      cbn [connectedAfter]. by rewrite Hev.
    + rewrite elem_of_difference, !elem_of_union, elem_of_difference,
        !elem_of_ownRoom, connected_snoc.
      cbn [connectedAfter]. rewrite Hev, elem_of_difference, !elem_of_singleton.
      split.
      * intros [[? | [-> ?]] ?]; [by left | by right].
      * intros [[? ?] | [-> [? ?]]]; [by split; [left|] | by split; [right|]].
Qed.

(** The invariant of the server with its connections. *)
Lemma coherent_serve usersDb messagesDb arrivals :
  coherent arrivals (serve arrivals (boot usersDb messagesDb)).
Proof.
  induction arrivals as [|a arrivals IH] using rev_ind.
  - intros r. split; [|split]; [|done|].
    + intros s. unfold serve, boot; cbn [foldl rooms]. by rewrite lookup_empty.
    + unfold members, ownRoom, connected; cbn [foldl].
      rewrite decide_False by apply not_elem_of_empty.
      by rewrite union_empty_r_L.
  - intros r. destruct (IH r) as (Hne & Hsession & Hroom).
    rewrite serve_snoc, members_snoc.
    rewrite <- (audience_arrive arrivals a r (members arrivals r)).
    destruct a as [c | i]; cbn [arrive membersAfter].
    + split; [exact Hne|]. split; [exact Hsession|].
      rewrite roomMembers_connection, Hroom. by case_decide.
    + split; [|split].
      * intros s. by apply nonempty_handle.
      * by rewrite sessionMembers_handle, Hsession.
      * by rewrite roomMembers_handle, Hroom.
Qed.

(** *** Playback relay (claim C3) *)




(** *** Who receives what *)

(** X8: whatever the server emits on an event goes only to members of the
    room the event names (connections that joined it and have not
    disconnected) and to the connected socket whose id is that name, if
    there is one; a playback-state-update comes from a
    playback-state-change and never goes back to its sender. *)
Theorem emissions_stay_in_room usersDb messagesDb arrivals i recipients ev :
  Emit recipients ev ∈ snd (handle i (serve arrivals (boot usersDb messagesDb))) ->
  exists r,
    eventRoom (event i) = Some r /\
    recipients ⊆ members arrivals r ∪ ownRoom arrivals r /\
    (forall vs, ev = VideoStateUpdate vs ->
       (conn i ∉ recipients) /\ changesPlayback (event i) r).
Proof.
  set (σ := serve arrivals (boot usersDb messagesDb)).
  assert (forall r, roomMembers σ r = members arrivals r ∪ ownRoom arrivals r)
    as Hmem by (intros r; apply coherent_serve).
  destruct i as [c [roomId|roomId vs|roomId text token|] ε].
  - intros Hin. by apply elem_of_nil in Hin.
  - unfold handle; cbn [event conn]. unfold videoStateChange.
    destruct (rooms σ !! roomId) as [session|]; cbn [snd].
    2:{ intros Hin. by apply elem_of_nil in Hin. }
    intros [= -> ->]%list_elem_of_singleton.
    exists roomId. split; [done|]. rewrite Hmem.
    split; [by apply subseteq_difference_l|].
    intros vs' [= <-]. split; [|by exists vs].
    rewrite elem_of_difference, elem_of_singleton. by intros [_ Hc].
  - change (handle {| conn := c; event := ChatMessage roomId text token;
                      env := ε |} σ)
      with (handle (input c (ChatMessage roomId text token) ε) σ).
    rewrite handle_chat, chatMessage_cases. cbn [snd event].
    destruct (token ≫= jwtVerify ε) as [decoded|]; cbn [snd app].
    2:{ intros Hin%list_elem_of_singleton. discriminate Hin. }
    destruct (saveRejects ε); cbn [snd app].
    { intros Hin%list_elem_of_singleton. discriminate Hin. }
    cbv zeta. destruct (findRejects ε); cbn [snd app].
    { rewrite elem_of_cons, list_elem_of_singleton.
      intros [Hin | Hin]; discriminate Hin. }
    destruct (userCollection σ !! tokenId decoded); cbn [snd app].
    2:{ rewrite elem_of_cons, list_elem_of_singleton.
        intros [Hin | Hin]; discriminate Hin. }
    rewrite elem_of_cons, list_elem_of_singleton.
    intros [Hin | Hin]; [discriminate Hin|]. injection Hin as -> ->.
    exists roomId. split; [done|]. rewrite Hmem. split; [done|].
    intros vs' Hvs. discriminate Hvs.
  - intros Hin. by apply elem_of_nil in Hin.
Qed.

Lemma emissions_stay_in_room_witness :
  exists r,
    eventRoom (VideoStateChange socketX demoPlaying) = Some r /\
    ({[socketX]} : gset ConnId)
      ⊆ members demoNamedAfterSocket r ∪ ownRoom demoNamedAfterSocket r.
Proof.
  destruct (emissions_stay_in_room {[ "u1" := "ann" ]} demoHistory
              demoNamedAfterSocket
              (input socketA (VideoStateChange socketX demoPlaying) demoEnv)
              {[socketX]} (VideoStateUpdate demoPlaying))
    as (r & Hr & Hsub & _).
  { apply list_elem_of_singleton. by vm_compute. }
  exists r. split; [exact Hr | exact Hsub].
Defined.



(** *** Chat from outside the room (claim C10) *)

(** C10, as stated, fails: the token verifies, yet the message is neither
    persisted nor broadcast, because the store refuses the write, as it
    does for a document whose room is not an ObjectId. *)
Lemma chat_with_valid_token_not_persisted :
  let σ := serve demoRoomArrivals (boot demoUsersDb []) in
  let out := handle (input "z" (ChatMessage "nowhere" "hi" (Some "good"))
                       demoRefusing) σ in
  jwtVerify demoRefusing "good"
    = Some {| tokenId := userObjectId; tokenUsername := "ann" |} /\
  messageCollection (fst out) = messageCollection σ /\
  (forall doc, Saved doc ∉ snd out) /\
  (forall recipients ev, Emit recipients ev ∉ snd out).
Proof.
  cbv zeta.
  assert (handle (input "z" (ChatMessage "nowhere" "hi" (Some "good"))
                    demoRefusing) (serve demoRoomArrivals (boot demoUsersDb []))
          = (serve demoRoomArrivals (boot demoUsersDb []), [chatError])) as ->
    by reflexivity.
  cbn [fst snd]. split; [done|]. split; [done|]. split.
  - intros doc Hin%list_elem_of_singleton. discriminate Hin.
  - intros recipients ev Hin%list_elem_of_singleton. discriminate Hin.
Qed.

(** C10, amended: for a chat message whose token verifies, naming any
    room, the outcome is the same whoever sends it and whatever the
    registry holds; the chat path never looks at membership or at the
    registry.  The message is persisted when the store accepts the write,
    and it is broadcast exactly when, besides, the read back succeeds and
    the token's user exists: then to exactly the connections that joined
    that room and have not disconnected, and the connected socket whose id
    is the room's name, if there is one; to none if there are none. *)
Theorem chat_checks_token_only usersDb messagesDb arrivals c roomId text t ε decoded :
  jwtVerify ε t = Some decoded ->
  let σ := serve arrivals (boot usersDb messagesDb) in
  let out := handle (input c (ChatMessage roomId text (Some t)) ε) σ in
  let doc := chatDoc σ ε roomId (tokenId decoded) text in
  (saveRejects ε = false ->
   messageCollection (fst out) = messageCollection σ ++ [doc]) /\
  (saveRejects ε = true -> out = (σ, [chatError])) /\
  (forall recipients ev,
     Emit recipients ev ∈ snd out <->
     saveRejects ε = false /\ findRejects ε = false /\
     recipients = members arrivals roomId ∪ ownRoom arrivals roomId /\
     exists author,
       userCollection σ !! tokenId decoded = Some author /\
       ev = ChatBroadcast text author (now ε)) /\
  (forall c', handle (input c' (ChatMessage roomId text (Some t)) ε) σ = out) /\
  (forall registry,
     snd (handle (input c (ChatMessage roomId text (Some t)) ε)
            (setRooms registry σ)) = snd out /\
     messageCollection
       (fst (handle (input c (ChatMessage roomId text (Some t)) ε)
               (setRooms registry σ)))
     = messageCollection (fst out)).
Proof.
  intros Hv. cbv zeta.
  destruct (coherent_serve usersDb messagesDb arrivals roomId) as (_ & _ & Hroom).
  rewrite <- Hroom. clear Hroom.
  set (σ := serve arrivals (boot usersDb messagesDb)).
  assert (forall c0 σ0,
            userCollection σ0 = userCollection σ ->
            handle (input c0 (ChatMessage roomId text (Some t)) ε) σ0 =
              if saveRejects ε then (σ0, [chatError])
              else
                let doc := chatDoc σ0 ε roomId (tokenId decoded) text in
                let σ' := setMessages (messageCollection σ0 ++ [doc]) σ0 in
                if findRejects ε then (σ', [Saved doc; chatError])
                else
                  match userCollection σ !! tokenId decoded with
                  | Some author =>
                      (σ', [Saved doc;
                            Emit (roomMembers σ0 roomId)
                              (ChatBroadcast text author (now ε))])
                  | None => (σ', [Saved doc; chatError])
                  end) as Hrun.
  { intros c0 σ0 Hu. rewrite handle_chat, chatMessage_cases.
    cbn [mbind option_bind snd app]. by rewrite Hv, Hu. }
  rewrite (Hrun c σ eq_refl).
  split; [|split; [|split; [|split]]].
  - intros ->. cbv zeta. destruct (findRejects ε); [done|].
    by destruct (userCollection σ !! tokenId decoded).
  - by intros ->.
  - intros recipients ev. destruct (saveRejects ε).
    { cbn [snd]. rewrite list_elem_of_singleton. split.
      - intros Hin. discriminate Hin.
      - intros (Hs & _). discriminate Hs. }
    cbv zeta. destruct (findRejects ε).
    { cbn [snd]. rewrite elem_of_cons, list_elem_of_singleton. split.
      - intros [Hin | Hin]; discriminate Hin.
      - intros (_ & Hf & _). discriminate Hf. }
    destruct (userCollection σ !! tokenId decoded) as [author|];
      cbn [snd]; rewrite elem_of_cons, list_elem_of_singleton.
    + split.
      * intros [Hin | Hin]; [discriminate Hin|]. injection Hin as -> ->.
        split; [done|]. split; [done|]. split; [done|]. by exists author.
      * intros (_ & _ & -> & author' & [= <-] & ->). by right.
    + split.
      * intros [Hin | Hin]; discriminate Hin.
      * intros (_ & _ & _ & author' & Hnone & _). discriminate Hnone.
  - intros c'. by rewrite (Hrun c' σ eq_refl).
  - intros registry. rewrite (Hrun c (setRooms registry σ) eq_refl).
    destruct (saveRejects ε); [done|]. cbv zeta.
    destruct (findRejects ε); [done|].
    by destruct (userCollection σ !! tokenId decoded).
Qed.

Lemma chat_checks_token_only_witness :
  let σ := serve demoRoomArrivals (boot demoUsersDb []) in
  let out := handle (input "z" (ChatMessage roomObjectId "hi" (Some "good"))
                       demoAccepting) σ in
  ("z" ∉ members demoRoomArrivals roomObjectId) /\
  rooms σ !! "z" = None /\
  Emit {["a"; "b"]} (ChatBroadcast "hi" "ann" (now demoAccepting)) ∈ snd out /\
  messageCollection (fst out)
    = [chatDoc σ demoAccepting roomObjectId userObjectId "hi"].
Proof.
  cbv zeta.
  destruct (chat_checks_token_only demoUsersDb [] demoRoomArrivals "z"
              roomObjectId "hi" "good" demoAccepting
              {| tokenId := userObjectId; tokenUsername := "ann" |} eq_refl)
    as (Hsaved & _ & Hsent & _).
  assert (members demoRoomArrivals roomObjectId = {["a"; "b"]})
    as Hmembers by by vm_compute.
  assert (ownRoom demoRoomArrivals roomObjectId = ∅) as Hown by by vm_compute.
  split; [|split; [|split]].
  - rewrite Hmembers, elem_of_union, !elem_of_singleton. by intros [? | ?].
  - by vm_compute.
  - apply Hsent. split; [done|]. split; [done|].
    split; [by rewrite Hmembers, Hown, union_empty_r_L|].
    exists "ann". split; [by vm_compute | done].
  - exact (Hsaved eq_refl).
Defined.

End SocketsFacts.

(** ** Numbers and their decimal text *)
Module NumberFacts.
Import JS Streamer JSFacts.

Lemma decimalFrom_shift s : forall acc,
  decimalFrom acc s = acc * 10 ^ Z.of_nat (String.length s) + decimalValue s.
Proof.
  unfold decimalValue.
  induction s as [|c s IH]; intros acc; cbn [decimalFrom String.length].
  - rewrite Z.pow_0_r. lia.
  - rewrite IH, (IH (10 * 0 + _)), Nat2Z.inj_succ, Z.pow_succ_r by lia. lia.
Qed.

Lemma digit_pretty_N_char x :
  (x < 10)%N -> digit (pretty_N_char x) = Some (Z.of_N x).
Proof.
  intros Hx.
  assert (x = 0 \/ x = 1 \/ x = 2 \/ x = 3 \/ x = 4 \/ x = 5 \/ x = 6
          \/ x = 7 \/ x = 8 \/ x = 9)%N as Hcases by lia.
  repeat (destruct Hcases as [-> | Hcases]; [reflexivity|]).
  by subst x.
Qed.

(** The digits [pretty] puts in front of [s] read back as the number. *)
Lemma pretty_N_go_value x : forall s,
  allDigits s = true ->
  allDigits (pretty_N_go x s) = true /\
  decimalValue (pretty_N_go x s)
    = Z.of_N x * 10 ^ Z.of_nat (String.length s) + decimalValue s.
Proof.
  induction (N.lt_wf_0 x) as [x _ IH]. intros s Hs.
  destruct (decide (x = 0%N)) as [-> | Hpos].
  - rewrite pretty_N_go_0. split; [done|]. lia.
  - rewrite pretty_N_go_step by lia.
    pose proof (digit_pretty_N_char (x `mod` 10)%N
                  ltac:(apply N.mod_lt; lia)) as Hd.
    destruct (IH (x `div` 10)%N ltac:(apply N.div_lt; lia)
                (String (pretty_N_char (x `mod` 10)%N) s)) as [Hall Hval].
    { cbn [allDigits]. by rewrite Hd. }
    split; [done|]. rewrite Hval.
    unfold decimalValue at 1. cbn [decimalFrom String.length].
    rewrite <- (digit_value _ _ Hd).
    rewrite decimalFrom_shift, Nat2Z.inj_succ, Z.pow_succ_r by lia.
    pose proof (N.div_mod x 10 ltac:(lia)) as Hdm.
    assert (Z.of_N x = 10 * Z.of_N (x `div` 10) + Z.of_N (x `mod` 10)) by lia.
    lia.
Qed.

Lemma pretty_N_go_nonempty x : x ≠ 0%N -> pretty_N_go x "" ≠ "".
Proof.
  intros Hx Hempty.
  pose proof (pretty_N_go_value x "" eq_refl) as [_ Hval].
  rewrite Hempty in Hval. cbn in Hval. lia.
Qed.

(** The decimal text of a number that is not negative: digits only, at
    least one, denoting the number. *)
Lemma pretty_decimal z :
  0 <= z ->
  allDigits (pretty z) = true /\ pretty z ≠ "" /\ decimalValue (pretty z) = z.
Proof.
  intros Hz. destruct z as [|p|p]; [done| |lia].
  change (pretty (Z.pos p)) with (pretty_N_go (N.pos p) "").
  destruct (pretty_N_go_value (N.pos p) "" eq_refl) as [Hall Hval].
  split; [done|]. split; [by apply pretty_N_go_nonempty|].
  rewrite Hval. cbn. lia.
Qed.

Lemma parseDigits_NaN_digits s :
  allDigits s = true -> s ≠ "" -> parseDigits NaN s = Some (decimalValue s).
Proof.
  destruct s as [|c s]; [done|]. intros Hd _.
  cbn [allDigits] in Hd. cbn [parseDigits].
  destruct (digit c) as [d|] eqn:Hc; [|discriminate].
  rewrite (parseDigits_allDigits s _ Hd).
  unfold decimalValue. cbn [decimalFrom from_option id].
  by rewrite (digit_value _ _ Hc).
Qed.

End NumberFacts.

(** ** The streaming route: authentication and the edges of range handling *)
Module StreamerEdgeFacts.
Import JS Streamer StreamerSpec JSFacts StreamerFacts NumberFacts.

(** [parseInt] by the first character that is not white space. *)
Lemma parseInt_cases s :
  parseInt s =
    match skipWhiteSpace s with
    | String c t =>
        if Ascii.eqb c "-" then Z.opp <$> parseDigits NaN t
        else if Ascii.eqb c "+" then parseDigits NaN t
        else parseDigits NaN (String c t)
    | EmptyString => NaN
    end.
Proof.
  unfold parseInt. destruct (skipWhiteSpace s) as [|c t]; [done|].
  destruct c as [[] [] [] [] [] [] [] []]; reflexivity.
Qed.

(** Reading a number back from its text. *)
Lemma parseInt_toString n : parseInt (toString n) = n.
Proof.
  destruct n as [[|p|p]|]; try reflexivity.
  - destruct (pretty_decimal (Z.pos p) ltac:(lia)) as (Hall & Hne & Hval).
    cbn [toString]. rewrite parseInt_digits by done. by rewrite Hval.
  - destruct (pretty_decimal (Z.pos p) ltac:(lia)) as (Hall & Hne & Hval).
    cbn [toString].
    change (parseInt (pretty (Z.neg p)))
      with (Z.opp <$> parseDigits NaN (pretty (Z.pos p))).
    rewrite parseDigits_NaN_digits by done. by rewrite Hval.
Qed.

Lemma parseDigits_nonneg s : forall acc v,
  (forall a, acc = Some a -> 0 <= a) ->
  parseDigits acc s = Some v -> 0 <= v.
Proof.
  induction s as [|c s IH]; intros acc v Hacc; cbn [parseDigits].
  - apply Hacc.
  - destruct (digit c) as [d|] eqn:Hc; [|apply Hacc].
    apply IH. intros a [= <-].
    assert (0 <= from_option id 0 acc).
    { destruct acc as [a|]; cbn; [by apply Hacc | lia]. }
    unfold digit in Hc. case_match; [|discriminate].
    injection Hc as <-. lia.
Qed.

Lemma occurs_skipWhiteSpace c s :
  occurs c s = false -> occurs c (skipWhiteSpace s) = false.
Proof.
  induction s as [|c' s IH]; [done|]. cbn [skipWhiteSpace].
  destruct (isWhiteSpace c'); [|done].
  cbn [occurs]. intros [_ Hs]%orb_false_iff. by apply IH.
Qed.

(** Without a minus sign in the text, [parseInt] gives no negative
    number. *)
Lemma parseInt_nonneg s v :
  occurs "-"%char s = false -> parseInt s = Some v -> 0 <= v.
Proof.
  intros Hocc%occurs_skipWhiteSpace. rewrite parseInt_cases.
  destruct (skipWhiteSpace s) as [|c t]; [done|].
  cbn [occurs] in Hocc. apply orb_false_iff in Hocc as [Hc _]. rewrite Hc.
  destruct (Ascii.eqb c "+"); apply parseDigits_nonneg; done.
Qed.

Lemma split_head sep s :
  exists p rest, split sep s = p :: rest /\ occurs sep p = false.
Proof.
  induction s as [|c s (p & rest & Hsplit & Hp)]; cbn [split].
  - by exists EmptyString, [].
  - destruct (Ascii.eqb c sep) eqn:Hc.
    + by exists EmptyString, (split sep s).
    + rewrite Hsplit. exists (String c p), rest. split; [done|].
      cbn [occurs]. by rewrite Hc, Hp.
Qed.

(** The start the route parses from a Range header is never negative: the
    minus sign is the separator. *)
Lemma rangeStart_nonneg h s : rangeStart h = Some s -> 0 <= s.
Proof.
  unfold rangeStart, rangeParts, parseIntAt, index.
  destruct (split_head "-"%char (removeFirst "bytes=" h))
    as (p & rest & -> & Hp).
  cbn [lookup list_lookup]. by apply parseInt_nonneg.
Qed.

Lemma streamHandler_status B req :
  status (streamHandler B req) = 200 \/ status (streamHandler B req) = 206 \/
  status (streamHandler B req) = 404 \/ status (streamHandler B req) = 500.
Proof.
  unfold streamHandler.
  destruct (roomFindById B (roomId req)) as [| |room]; cbn; auto.
  destruct (negb (isLocalFile room) || negb (truthy (localFilePath room)));
    cbn; auto.
  destruct (fsFile B _); cbn; auto.
  destruct (truthy (range req)); cbn; auto.
  destruct (createReadStream _ _ _); cbn; auto.
Qed.

Lemma getStream_by_token B req :
  getStream B req =
    if negb (truthy (requestToken req)) then sendStatus 401 "Unauthorized"
    else if jwtVerify B (default EmptyString (requestToken req))
         then streamHandler B req
         else sendStatus 403 "Forbidden".
Proof. reflexivity. Qed.

Lemma authenticated_by_token B req :
  authenticated B req <->
  exists tok, requestToken req = Some tok /\ truthy (Some tok) = true /\
              jwtVerify B tok = true.
Proof.
  unfold authenticated, requestToken. split.
  - intros (h & tok & -> & Htok & Ht & Hv). by exists tok.
  - intros (tok & Htok & Ht & Hv).
    destruct (authorization req) as [h|]; [|done]. by exists h, tok.
Qed.

Lemma append_empty s : s +:+ "" = s.
Proof.
  induction s as [|c s IH]; [done|].
  transitivity (String c (s +:+ "")); [reflexivity | by rewrite IH].
Qed.

(** *** Authentication in front of the route *)

(** X1: the streaming route answers 401 exactly when the request carries no
    token (no Authorization header, or none with a non-empty second word),
    and 403 exactly when it carries a token that does not verify; in both
    cases the answer is the same whatever the room store and the file
    system hold. *)
Theorem stream_token_gate B req :
  (status (getStream B req) = 401 <-> truthy (requestToken req) = false) /\
  (status (getStream B req) = 403 <->
     exists tok, requestToken req = Some tok /\ truthy (Some tok) = true /\
                 jwtVerify B tok = false) /\
  (~ authenticated B req ->
   forall B', jwtVerify B' = jwtVerify B -> getStream B' req = getStream B req).
Proof.
  rewrite getStream_by_token.
  pose proof (streamHandler_status B req) as Hst.
  split; [|split].
  - destruct (truthy (requestToken req)); cbn [negb]; [|done].
    destruct (jwtVerify B _); cbn; [|done].
    split; [|done]. intros H401. rewrite H401 in Hst.
    destruct Hst as [?|[?|[?|?]]]; discriminate.
  - destruct (requestToken req) as [tok|] eqn:Htok; cbn [negb truthy].
    2:{ split; [done|]. by intros (? & ? & _). }
    destruct tok as [|c tok]; cbn [negb].
    { split; [done|]. by intros (? & [= <-] & ? & _). }
    cbn [from_option id].
    destruct (jwtVerify B (String c tok)) eqn:Hv; cbn.
    + split.
      * intros H403. rewrite H403 in Hst.
        destruct Hst as [?|[?|[?|?]]]; discriminate.
      * intros (? & [= <-] & _ & ?). congruence.
    + split; [|done]. intros _. by exists (String c tok).
  - intros Hnot B' Hjwt. rewrite getStream_by_token, Hjwt.
    destruct (truthy (requestToken req)) eqn:Ht; cbn [negb]; [|done].
    destruct (jwtVerify B _) eqn:Hv; [|done].
    exfalso. apply Hnot, authenticated_by_token.
    destruct (requestToken req) as [tok|]; [|done]. by exists tok.
Qed.

Lemma stream_token_gate_witness :
  status (getStream demoBackend
            {| roomId := "r1"; authorization := Some "Bearer forged";
               range := None |}) = 403 /\
  status (getStream demoBackend
            {| roomId := "r1"; authorization := None; range := None |}) = 401.
Proof.
  split.
  - apply (stream_token_gate demoBackend
             {| roomId := "r1"; authorization := Some "Bearer forged";
                range := None |}).
    by exists "forged".
  - by apply (stream_token_gate demoBackend
                {| roomId := "r1"; authorization := None; range := None |}).
Defined.

(** X2: the middleware takes the second space-separated word of the
    Authorization header as the token, whatever the first word is and
    whatever follows the second: the scheme is not checked. *)
Theorem authorization_scheme_ignored B req scheme tok rest :
  occurs " "%char scheme = false -> occurs " "%char tok = false ->
  tok <> EmptyString ->
  rest = EmptyString \/ (exists r, rest = String " "%char r) ->
  authorization req = Some (scheme +:+ " " +:+ tok +:+ rest) ->
  requestToken req = Some tok /\
  getStream B req =
    if jwtVerify B tok then streamHandler B req
    else sendStatus 403 "Forbidden".
Proof.
  intros Hscheme Htok Hne Hrest Hauth.
  assert (requestToken req = Some tok) as Hreq.
  { unfold requestToken. rewrite Hauth.
    change (scheme +:+ " " +:+ tok +:+ rest)
      with (scheme +:+ String " "%char (tok +:+ rest)).
    rewrite split_at by done. unfold index. cbn [lookup list_lookup].
    destruct Hrest as [-> | (r & ->)].
    - by rewrite append_empty, split_without.
    - by rewrite split_at. }
  split; [done|]. rewrite getStream_by_token, Hreq.
  by destruct tok.
Qed.

Lemma authorization_scheme_ignored_witness :
  let req := {| roomId := "r1"; authorization := Some "Basic good trailing";
                range := None |} in
  requestToken req = Some "good" /\
  getStream demoBackend req = streamHandler demoBackend req.
Proof.
  exact (authorization_scheme_ignored demoBackend
           {| roomId := "r1"; authorization := Some "Basic good trailing";
              range := None |} "Basic" "good" " trailing"
           eq_refl eq_refl ltac:(discriminate)
           (or_intror (ex_intro _ "trailing" eq_refl)) eq_refl).
Defined.

(** *** Range requests written from numbers *)

(** X3: a Range header written in decimal from numbers
    [0 <= start <= end <= fileSize-1] is answered with status 206, a
    Content-Range that repeats the two numbers and the file's size,
    Content-Length [end-start+1] and the bytes of the file at offsets
    [start..end]. *)
Theorem range_request_by_numbers B req content start end_ :
  authenticated B req -> servesFile B req content ->
  range req = Some (rangeOf start end_) ->
  0 <= start <= end_ -> end_ <= Z.of_nat (length content) - 1 ->
  getStream B req =
    {| status := 206;
       headers :=
         [("Content-Range",
           HStr ("bytes " +:+ pretty start +:+ "-" +:+ pretty end_
                   +:+ "/" +:+ pretty (Z.of_nat (length content))));
          ("Accept-Ranges", HStr "bytes");
          ("Content-Length", HNum (Some (end_ - start + 1)));
          ("Content-Type", HStr "video/mp4")];
       body := Bytes (fileWindow content start end_) |} /\
  Z.of_nat (length (fileWindow content start end_)) = end_ - start + 1.
Proof.
  intros Hauth Hserve Hrange [H0 Hle] Hend.
  destruct (pretty_decimal start H0) as (Hs & Hsne & Hsval).
  destruct (pretty_decimal end_ ltac:(lia)) as (He & Hene & Heval).
  assert (requestedEnd (pretty end_) (Z.of_nat (length content)) = end_)
    as Hreq.
  { unfold requestedEnd. by destruct (pretty end_). }
  split.
  - rewrite (getStream_authenticated _ _ Hauth).
    rewrite (streamHandler_ranged B req content (pretty start) (pretty end_)
               Hserve Hs Hsne He Hrange) by (rewrite Hsval, Hreq; lia).
    cbv zeta. by rewrite Hsval, Hreq.
  - unfold fileWindow. rewrite length_take, length_drop. lia.
Qed.

Lemma range_request_by_numbers_witness :
  getStream demoBackend (demoRequest "r1" (Some "bytes=100-149")) =
    {| status := 206;
       headers :=
         [("Content-Range", HStr "bytes 100-149/1000");
          ("Accept-Ranges", HStr "bytes");
          ("Content-Length", HNum (Some 50));
          ("Content-Type", HStr "video/mp4")];
       body := Bytes (replicate 50 Byte.x42) |} /\
  Z.of_nat (length (fileWindow demoFile 100 149)) = 50.
Proof.
  exact (range_request_by_numbers demoBackend
           (demoRequest "r1" (Some "bytes=100-149")) demoFile 100 149
           (demo_authenticated _ _) (demo_servesFile _) eq_refl
           ltac:(lia) ltac:(vm_compute; discriminate)).
Defined.

(** *** When a range request is served *)

(** X4: on a local-file room whose file exists, a request with a non-empty
    Range header whose start and end, where the route parses them as
    numbers, do not exceed JavaScript's largest safe integer [2^53 - 1],
    is answered with 206 exactly when both are numbers with
    [start <= end], and with 500 otherwise; the parsed start is never
    negative. *)
Theorem partial_content_iff_window_parses B req content :
  authenticated B req -> servesFile B req content ->
  truthy (range req) = true ->
  (forall s, rangeStart (default EmptyString (range req)) = Some s ->
     s <= maxSafeInteger) ->
  (forall e, rangeEnd (default EmptyString (range req))
               (Z.of_nat (length content)) = Some e ->
     e <= maxSafeInteger) ->
  let r := default EmptyString (range req) in
  let fileSize := Z.of_nat (length content) in
  (status (getStream B req) = 206 <->
     exists s e, rangeStart r = Some s /\ rangeEnd r fileSize = Some e /\
                 0 <= s <= e /\ e <= maxSafeInteger) /\
  (status (getStream B req) = 500 <-> status (getStream B req) <> 206).
Proof.
  intros Hauth Hserve Hr Hsafe_s Hsafe_e. cbv zeta.
  rewrite (getStream_authenticated _ _ Hauth).
  rewrite (streamHandler_servesFile _ _ _ Hserve). cbv zeta. rewrite Hr.
  unfold createReadStream.
  destruct (rangeStart _) as [s|] eqn:Hs.
  2:{ cbn. split; [|done]. split; [done|]. by intros (? & ? & ? & _). }
  destruct (rangeEnd _ _) as [e|] eqn:He.
  2:{ cbn. split; [|done]. split; [done|]. by intros (? & ? & _ & ? & _). }
  pose proof (rangeStart_nonneg _ _ Hs) as H0.
  destruct ((0 <=? s) && (0 <=? e) && (s <=? e)) eqn:Hok; cbn.
  - apply andb_prop in Hok as [[_ _]%andb_prop Hle%Z.leb_le].
    split; [|done]. split; [|done]. intros _. exists s, e.
    pose proof (Hsafe_e e eq_refl). by repeat split.
  - split; [|done]. split; [done|].
    intros (s' & e' & [= <-] & [= <-] & Hb). exfalso.
    rewrite (proj2 (Z.leb_le 0 s)), (proj2 (Z.leb_le 0 e)),
      (proj2 (Z.leb_le s e)) in Hok by lia.
    discriminate Hok.
Qed.

Lemma partial_content_iff_window_parses_witness :
  status (getStream demoBackend (demoRequest "r1" (Some "bytes=abc"))) = 500 /\
  status (getStream demoBackend (demoRequest "r1" (Some "bytes=900-1999"))) = 206.
Proof.
  split.
  - destruct (partial_content_iff_window_parses demoBackend
                (demoRequest "r1" (Some "bytes=abc")) demoFile
                (demo_authenticated _ _) (demo_servesFile _) eq_refl)
      as [_ H500].
    + intros s Hs. vm_compute in Hs. discriminate Hs.
    + intros e He. vm_compute in He. injection He as <-. by vm_compute.
    + apply H500. vm_compute. discriminate.
  - destruct (partial_content_iff_window_parses demoBackend
                (demoRequest "r1" (Some "bytes=900-1999")) demoFile
                (demo_authenticated _ _) (demo_servesFile _) eq_refl)
      as [H206 _].
    + intros s Hs. vm_compute in Hs. injection Hs as <-. by vm_compute.
    + intros e He. vm_compute in He. injection He as <-. by vm_compute.
    + apply H206. exists 900, 1999.
      split; [by vm_compute|]. split; [by vm_compute|]. by vm_compute.
Defined.

(** X5: for a window parsed within JavaScript's safe integers (up to
    [2^53 - 1]), a 206 response announces Content-Length [end-start+1] for
    the window the route parsed and carries the bytes of that window that
    the file has; the body is as long as announced exactly when the end
    lies inside the file, so an end beyond the file is not cut back. *)
Theorem partial_content_body_and_length B req content :
  authenticated B req -> servesFile B req content ->
  (forall s, rangeStart (default EmptyString (range req)) = Some s ->
     s <= maxSafeInteger) ->
  (forall e, rangeEnd (default EmptyString (range req))
               (Z.of_nat (length content)) = Some e ->
     e <= maxSafeInteger) ->
  status (getStream B req) = 206 ->
  let fileSize := Z.of_nat (length content) in
  exists s e,
    rangeStart (default EmptyString (range req)) = Some s /\
    rangeEnd (default EmptyString (range req)) fileSize = Some e /\
    0 <= s <= e /\ e <= maxSafeInteger /\
    header "Content-Length" (getStream B req) = Some (HNum (Some (e - s + 1))) /\
    body (getStream B req) = Bytes (fileWindow content s e) /\
    (forall i, (i < length (fileWindow content s e))%nat ->
       fileWindow content s e !! i = content !! (Z.to_nat s + i)%nat) /\
    Z.of_nat (length (fileWindow content s e))
      = Z.min (e - s + 1) (Z.max 0 (fileSize - s)) /\
    (Z.of_nat (length (fileWindow content s e)) = e - s + 1
       <-> e <= fileSize - 1).
Proof.
  intros Hauth Hserve Hsafe_s Hsafe_e. cbv zeta.
  rewrite (getStream_authenticated _ _ Hauth).
  rewrite (streamHandler_servesFile _ _ _ Hserve). cbv zeta.
  destruct (truthy (range req)); [|discriminate].
  unfold createReadStream.
  destruct (rangeStart _) as [s|] eqn:Hs; [|discriminate].
  destruct (rangeEnd _ _) as [e|] eqn:He; [|discriminate].
  destruct ((0 <=? s) && (0 <=? e) && (s <=? e)) eqn:Hok; [|discriminate].
  apply andb_prop in Hok as [[H0%Z.leb_le _]%andb_prop Hle%Z.leb_le].
  pose proof (Hsafe_e e eq_refl) as Hsafe.
  intros _. exists s, e.
  assert (Z.of_nat (length (fileWindow content s e))
          = Z.min (e - s + 1) (Z.max 0 (Z.of_nat (length content) - s)))
    as Hlen.
  { unfold fileWindow. rewrite length_take, length_drop. lia. }
  split; [done|]. split; [done|]. split; [done|]. split; [done|].
  split; [done|]. split; [done|]. split; [|split; [done|]].
  - intros i Hi. unfold fileWindow in *.
    rewrite length_take, length_drop in Hi.
    rewrite lookup_take_lt by lia. by rewrite lookup_drop.
  - rewrite Hlen. lia.
Qed.

Lemma partial_content_body_and_length_witness :
  exists s e,
    rangeStart "bytes=900-1999" = Some s /\
    rangeEnd "bytes=900-1999" 1000 = Some e /\
    header "Content-Length"
      (getStream demoBackend (demoRequest "r1" (Some "bytes=900-1999")))
      = Some (HNum (Some (e - s + 1))) /\
    e - s + 1 = 1100 /\
    Z.of_nat (length (fileWindow demoFile s e)) = 100.
Proof.
  destruct (partial_content_body_and_length demoBackend
              (demoRequest "r1" (Some "bytes=900-1999")) demoFile
              (demo_authenticated _ _) (demo_servesFile _))
    as (s & e & Hs & He & _ & _ & Hcl & _ & _ & Hlen & _).
  { intros s Hs. vm_compute in Hs. injection Hs as <-. by vm_compute. }
  { intros e He. vm_compute in He. injection He as <-. by vm_compute. }
  { reflexivity. }
  exists s, e. split; [exact Hs|]. split; [exact He|]. split; [exact Hcl|].
  assert (s = 900) as -> by (vm_compute in Hs; congruence).
  assert (e = 1999) as -> by (vm_compute in He; congruence).
  split; [reflexivity|]. rewrite Hlen. reflexivity.
Defined.

(** X6: a suffix range [bytes=-<n>] (the last [n] bytes, in HTTP) is not
    understood: whatever follows the minus sign, the start does not parse
    and the request is answered with 500. *)
Theorem suffix_range_answers_500 B req content tail :
  authenticated B req -> servesFile B req content ->
  range req = Some (suffixRange tail) ->
  rangeStart (suffixRange tail) = NaN /\
  getStream B req = streamingError.
Proof.
  intros Hauth Hserve Hrange.
  assert (rangeStart (suffixRange tail) = NaN) as Hstart by reflexivity.
  split; [done|].
  rewrite (getStream_authenticated _ _ Hauth).
  rewrite (streamHandler_servesFile _ _ _ Hserve), Hrange. cbv zeta.
  change (truthy (Some (suffixRange tail))) with true.
  cbn [from_option id]. by rewrite Hstart.
Qed.

Lemma suffix_range_answers_500_witness :
  status (getStream demoBackend (demoRequest "r1" (Some "bytes=-500"))) = 500.
Proof.
  destruct (suffix_range_answers_500 demoBackend
              (demoRequest "r1" (Some "bytes=-500")) demoFile "500"
              (demo_authenticated _ _) (demo_servesFile _) eq_refl)
    as [_ ->].
  reflexivity.
Defined.

(** X7: a well-formed header whose start exceeds the end of its window (an
    end given below the start, or no end and a start at or beyond the
    file's size) is answered with 500. *)
Theorem reversed_range_answers_500 B req content ds de :
  authenticated B req -> servesFile B req content ->
  allDigits ds = true -> ds <> EmptyString -> allDigits de = true ->
  range req = Some (rangeHeader ds de) ->
  requestedEnd de (Z.of_nat (length content)) < decimalValue ds ->
  getStream B req = streamingError.
Proof.
  intros Hauth Hserve Hs Hne He Hrange Hlt.
  rewrite (getStream_authenticated _ _ Hauth).
  rewrite (streamHandler_servesFile _ _ _ Hserve), Hrange. cbv zeta.
  rewrite truthy_rangeHeader. cbn [from_option id].
  rewrite rangeStart_wellFormed, rangeEnd_wellFormed by done.
  unfold createReadStream.
  rewrite (proj2 (Z.leb_gt (decimalValue ds) (requestedEnd de _))) by done.
  by rewrite andb_false_r.
Qed.

Lemma reversed_range_answers_500_witness :
  getStream demoBackend (demoRequest "r1" (Some "bytes=1000-")) = streamingError
  /\ getStream demoBackend (demoRequest "r1" (Some "bytes=50-10")) = streamingError.
Proof.
  split.
  - exact (reversed_range_answers_500 demoBackend
             (demoRequest "r1" (Some "bytes=1000-")) demoFile "1000" ""
             (demo_authenticated _ _) (demo_servesFile _)
             eq_refl ltac:(discriminate) eq_refl eq_refl
             ltac:(vm_compute; reflexivity)).
  - exact (reversed_range_answers_500 demoBackend
             (demoRequest "r1" (Some "bytes=50-10")) demoFile "50" "10"
             (demo_authenticated _ _) (demo_servesFile _)
             eq_refl ltac:(discriminate) eq_refl eq_refl
             ltac:(vm_compute; reflexivity)).
Defined.

End StreamerEdgeFacts.

(** ** The gateway: isolation of rooms, repeated events, the message store *)
Module GatewayMoreFacts.
Import Gateway GatewaySpec GatewayFacts.

Lemma server_eq (a b : Server) :
  rooms a = rooms b -> adapter a = adapter b ->
  userCollection a = userCollection b ->
  messageCollection a = messageCollection b -> a = b.
Proof. destruct a, b; cbn. by intros -> -> -> ->. Qed.

Lemma session_eq (a b : Session) :
  videoState a = videoState b -> users a = users b -> a = b.
Proof. destruct a, b; cbn. by intros -> ->. Qed.

Lemma collections_joinRoom c roomId σ :
  userCollection (fst (joinRoom c roomId σ)) = userCollection σ /\
  messageCollection (fst (joinRoom c roomId σ)) = messageCollection σ.
Proof. unfold joinRoom. cbn. by destruct (rooms σ !! roomId). Qed.

Lemma adapter_joinRoom c roomId σ :
  adapter (fst (joinRoom c roomId σ))
    = <[roomId := roomMembers σ roomId ∪ {[c]}]> (adapter σ).
Proof. unfold joinRoom. cbn. by destruct (rooms σ !! roomId). Qed.

Lemma collections_videoStateChange c roomId vs σ :
  userCollection (fst (videoStateChange c roomId vs σ)) = userCollection σ /\
  messageCollection (fst (videoStateChange c roomId vs σ)) = messageCollection σ.
Proof. unfold videoStateChange. by destruct (rooms σ !! roomId). Qed.

Lemma union_twice (X : gset ConnId) c : X ∪ {[c]} ∪ {[c]} = X ∪ {[c]}.
Proof. apply set_eq. intros x. rewrite !elem_of_union. tauto. Qed.

(** What one event does to the two collections of the database. *)
Lemma collections_handle i σ :
  userCollection (fst (handle i σ)) = userCollection σ /\
  exists added,
    messageCollection (fst (handle i σ)) = messageCollection σ ++ added /\
    forall k doc, added !! k = Some doc ->
      _id doc = (length (messageCollection σ) + k)%nat.
Proof.
  destruct i as [c [roomId|roomId vs|roomId text token|] ε].
  - destruct (collections_joinRoom c roomId σ) as [Hu Hm].
    split; [done|]. exists []. split; [by rewrite app_nil_r|done].
  - destruct (collections_videoStateChange c roomId vs σ) as [Hu Hm].
    split; [done|]. exists []. split; [by rewrite app_nil_r|done].
  - change (handle {| conn := c; event := ChatMessage roomId text token;
                      env := ε |} σ)
      with (handle (input c (ChatMessage roomId text token) ε) σ).
    rewrite handle_chat, chatMessage_cases. cbn [snd].
    assert (forall doc : MessageDoc,
              _id doc = length (messageCollection σ) ->
              forall k d, [doc] !! k = Some d ->
                _id d = (length (messageCollection σ) + k)%nat) as Hone.
    { intros doc Hid [|k] d; cbn; [|done]. intros [= <-]. lia. }
    assert (userCollection σ = userCollection σ /\
            exists added, messageCollection σ = messageCollection σ ++ added /\
              forall k doc, added !! k = Some doc ->
                _id doc = (length (messageCollection σ) + k)%nat) as Hsame.
    { split; [done|]. exists []. split; [by rewrite app_nil_r|done]. }
    destruct (token ≫= jwtVerify ε) as [decoded|]; [|done].
    destruct (saveRejects ε); [done|]. cbv zeta.
    destruct (findRejects ε).
    { cbn. split; [done|]. eexists. split; [done|]. by apply Hone. }
    destruct (userCollection σ !! tokenId decoded);
      cbn; (split; [done|]); eexists; (split; [done|]); by apply Hone.
  - split; [done|]. exists []. split; [by rewrite app_nil_r|done].
Qed.

(** *** Repeated events *)

(** X9: joining a room is idempotent: a second join-room of the same room
    by the same connection leaves the server exactly as the first one left
    it, and emits nothing. *)
Theorem join_is_idempotent c roomId ε ε' σ :
  handle (input c (JoinRoom roomId) ε')
    (fst (handle (input c (JoinRoom roomId) ε) σ))
  = (fst (handle (input c (JoinRoom roomId) ε) σ), []).
Proof.
  unfold handle; cbn [event conn input].
  set (σ1 := fst (joinRoom c roomId σ)).
  change (joinRoom c roomId σ1) with (fst (joinRoom c roomId σ1), @nil Effect).
  f_equal. apply server_eq.
  - apply map_eq. intros k. rewrite rooms_joinRoom.
    case_decide as Hk; [subst k|done].
    unfold sessionMembers, σ1. rewrite rooms_joinRoom, decide_True by done.
    cbn. f_equal. apply session_eq; cbn; [done|]. apply union_twice.
  - rewrite adapter_joinRoom. unfold σ1.
    rewrite roomMembers_joinRoom, decide_True by done.
    rewrite adapter_joinRoom, insert_insert_eq. f_equal. apply union_twice.
  - destruct (collections_joinRoom c roomId σ1) as [-> _]. done.
  - destruct (collections_joinRoom c roomId σ1) as [_ ->]. done.
Qed.



(** *** Rooms do not interfere *)

(** X11: an event that names a room (join-room, playback-state-change,
    chat-message) leaves every other room as it was: its session, playback
    state and members, and its socket.io room. *)
Theorem other_rooms_untouched i σ r r' :
  eventRoom (event i) = Some r' -> r' <> r ->
  rooms (fst (handle i σ)) !! r = rooms σ !! r /\
  roomMembers (fst (handle i σ)) r = roomMembers σ r.
Proof.
  intros Hev Hne. split.
  - destruct i as [c [roomId|roomId vs|roomId text token|] ε];
      cbn in Hev; try discriminate Hev; injection Hev as ->.
    + unfold handle; cbn [event conn]. by rewrite rooms_joinRoom, decide_False.
    + unfold handle; cbn [event conn].
      by rewrite rooms_videoStateChange, decide_False.
    + destruct (rooms_chat c r' text token ε σ) as [Hr _].
      unfold input in Hr. by rewrite Hr.
  - rewrite roomMembers_handle. unfold joinedAfter.
    destruct i as [c [roomId|roomId vs|roomId text token|] ε];
      cbn in *; try discriminate Hev; try done.
    injection Hev as ->. by rewrite decide_False.
Qed.

Lemma other_rooms_untouched_witness :
  let σ := run demoTrace demoBoot in
  let i := input "c" (JoinRoom "other") demoEnv in
  rooms (fst (handle i σ)) !! "r" = rooms σ !! "r" /\
  roomMembers (fst (handle i σ)) "r" = roomMembers σ "r".
Proof.
  exact (other_rooms_untouched (input "c" (JoinRoom "other") demoEnv)
           (run demoTrace demoBoot) "r" "other" eq_refl ltac:(discriminate)).
Defined.

(** X12: while a room's session lives, only a playback-state-change for
    that room changes its playback state: after any other event (a join, a
    chat message, a disconnect that leaves a member) the playback state is
    the one before, and the members are those before, with the joiner
    added or the leaver removed. *)
Theorem playback_state_kept i σ r s s' :
  ~ changesPlayback (event i) r ->
  rooms σ !! r = Some s -> rooms (fst (handle i σ)) !! r = Some s' ->
  videoState s' = videoState s /\ users s' = joinedAfter i r (users s).
Proof.
  intros Hnot Hs Hs'. split.
  - destruct i as [c [roomId|roomId vs|roomId text token|] ε].
    + unfold handle in Hs'; cbn [event conn] in Hs'.
      rewrite rooms_joinRoom in Hs'. case_decide as Hk.
      * subst roomId. rewrite Hs in Hs'. by injection Hs' as <-.
      * congruence.
    + unfold handle in Hs'; cbn [event conn] in Hs'.
      rewrite rooms_videoStateChange in Hs'. case_decide as Hk.
      * subst roomId. exfalso. apply Hnot. by exists vs.
      * congruence.
    + destruct (rooms_chat c roomId text token ε σ) as [Hr _].
      unfold input in Hr. rewrite Hr in Hs'. congruence.
    + unfold handle in Hs'; cbn [event conn] in Hs'.
      rewrite rooms_disconnect, Hs in Hs'. cbn in Hs'.
      unfold dropUser in Hs'. case_decide; [done|]. by injection Hs' as <-.
  - pose proof (sessionMembers_handle i σ r) as Hm.
    unfold sessionMembers in Hm. by rewrite Hs, Hs' in Hm.
Qed.

Lemma playback_state_kept_witness :
  let σ := run demoTrace demoBoot in
  let s' := {| videoState := demoPlaying; users := {["b"]} |} in
  rooms (fst (handle (input "a" Disconnect demoEnv) σ)) !! "r" = Some s' /\
  videoState s' = demoPlaying /\
  users s' = joinedAfter (input "a" Disconnect demoEnv) "r" {["a"; "b"]}.
Proof.
  cbv zeta.
  assert (~ changesPlayback (event (input "a" Disconnect demoEnv)) "r")
    as Hnot by (intros (vs & Hvs); discriminate Hvs).
  assert (rooms (run demoTrace demoBoot) !! "r"
          = Some {| videoState := demoPlaying; users := {["a"; "b"]} |})
    as Hs by by vm_compute.
  assert (rooms (fst (handle (input "a" Disconnect demoEnv)
                        (run demoTrace demoBoot))) !! "r"
          = Some {| videoState := demoPlaying; users := {["b"]} |})
    as Hs' by by vm_compute.
  split; [exact Hs'|].
  exact (playback_state_kept (input "a" Disconnect demoEnv)
           (run demoTrace demoBoot) "r" _ _ Hnot Hs Hs').
Defined.

(** *** The message store *)

(** X14: the gateway only ever appends to the Message collection and never
    touches the User collection: after any sequence of events the stored
    messages are those the database held at start-up, unchanged and in
    place, followed by the messages saved since. *)
Theorem message_store_append_only usersDb messagesDb trace :
  let σ := run trace (boot usersDb messagesDb) in
  userCollection σ = usersDb /\
  (exists added, messageCollection σ = messagesDb ++ added) /\
  (forall k doc, messagesDb !! k = Some doc ->
     messageCollection σ !! k = Some doc).
Proof.
  cbv zeta.
  assert (userCollection (run trace (boot usersDb messagesDb)) = usersDb /\
          exists added,
            messageCollection (run trace (boot usersDb messagesDb))
              = messagesDb ++ added) as [Hu (added & Hm)].
  { induction trace as [|i trace IH] using rev_ind.
    - split; [done|]. exists []. by rewrite app_nil_r.
    - rewrite run_snoc. destruct IH as [Hu (added & Hm)].
      destruct (collections_handle i (run trace (boot usersDb messagesDb)))
        as [Hu' (more & Hm' & _)].
      split; [congruence|]. exists (added ++ more).
      by rewrite Hm', Hm, app_assoc. }
  split; [done|]. split; [by exists added|].
  intros k doc Hk. rewrite Hm. by apply lookup_app_l_Some.
Qed.

(** X15: a chat message whose token verifies and whose document is written
    is nevertheless not broadcast when the read back fails or the token's
    user is not in the User collection: the message stays in the store, the
    error is logged, and no connection is sent anything. *)
Theorem chat_saved_without_broadcast c roomId text t ε decoded σ :
  jwtVerify ε t = Some decoded -> saveRejects ε = false ->
  findRejects ε = true \/ userCollection σ !! tokenId decoded = None ->
  let doc := chatDoc σ ε roomId (tokenId decoded) text in
  let out := handle (input c (ChatMessage roomId text (Some t)) ε) σ in
  out = (setMessages (messageCollection σ ++ [doc]) σ, [Saved doc; chatError]) /\
  (forall c', ~ sentTo c' (snd out)).
Proof.
  intros Hv Hsave Hfail. cbv zeta.
  assert (handle (input c (ChatMessage roomId text (Some t)) ε) σ
          = (setMessages
               (messageCollection σ ++ [chatDoc σ ε roomId (tokenId decoded) text]) σ,
             [Saved (chatDoc σ ε roomId (tokenId decoded) text); chatError]))
    as ->.
  { rewrite handle_chat, chatMessage_cases. cbn [mbind option_bind snd].
    rewrite Hv, Hsave. cbv zeta.
    destruct Hfail as [-> | Hnone]; [done|].
    rewrite Hnone. by destruct (findRejects ε). }
  split; [done|]. cbn [snd].
  intros c' (recipients & ev & Hin & _).
  rewrite elem_of_cons, list_elem_of_singleton in Hin.
  destruct Hin as [Hin | Hin]; discriminate Hin.
Qed.

Lemma chat_saved_without_broadcast_witness :
  let σ := run demoTrace (boot ∅ []) in
  let doc := chatDoc σ demoEnv "r" "u1" "hi" in
  handle (input "a" (ChatMessage "r" "hi" (Some "good")) demoEnv) σ
  = (setMessages (messageCollection σ ++ [doc]) σ, [Saved doc; chatError]).
Proof.
  cbv zeta.
  apply (chat_saved_without_broadcast "a" "r" "hi" "good" demoEnv
           {| tokenId := "u1"; tokenUsername := "ann" |}
           (run demoTrace (boot ∅ [])) eq_refl eq_refl).
  right. by vm_compute.
Defined.

End GatewayMoreFacts.

(** ** The JSON routes: history, rooms and accounts *)
Module ApiFacts.
Import Gateway GatewayFacts Api.

(** *** Sorting by timestamp *)

Lemma insertByTimestamp_Permutation doc l :
  insertByTimestamp doc l ≡ₚ doc :: l.
Proof.
  induction l as [|x l IH]; cbn [insertByTimestamp]; [done|].
  destruct (timestamp doc <=? timestamp x); [done|].
  rewrite IH. apply Permutation_swap.
Qed.

Lemma sortByTimestamp_Permutation l : sortByTimestamp l ≡ₚ l.
Proof.
  induction l as [|x l IH]; [done|]. unfold sortByTimestamp in *.
  cbn [foldr]. by rewrite insertByTimestamp_Permutation, IH.
Qed.

Lemma insertByTimestamp_ascending doc l :
  ascending (timestamp <$> l) ->
  ascending (timestamp <$> insertByTimestamp doc l).
Proof.
  induction l as [|x l IH]; cbn [insertByTimestamp].
  { intros _. cbn. split; [|done]. intros t' Ht'. by apply elem_of_nil in Ht'. }
  intros [Hx Hl]. destruct (timestamp doc <=? timestamp x) eqn:Hle.
  - apply Z.leb_le in Hle. cbn. split; [|by split].
    intros t' [-> | Ht']%elem_of_cons; [done|].
    specialize (Hx t' Ht'). lia.
  - apply Z.leb_gt in Hle. cbn. split; [|by apply IH].
    intros t' Ht'. apply list_elem_of_fmap in Ht' as (d & -> & Hd).
    rewrite insertByTimestamp_Permutation in Hd.
    apply elem_of_cons in Hd as [-> | Hd]; [lia|].
    apply Hx, list_elem_of_fmap. by exists d.
Qed.

Lemma sortByTimestamp_ascending l :
  ascending (timestamp <$> sortByTimestamp l).
Proof.
  induction l as [|x l IH]; [by cbn|]. unfold sortByTimestamp in *.
  cbn [foldr]. by apply insertByTimestamp_ascending.
Qed.

Lemma insertByTimestamp_snoc doc l last :
  timestamp doc <= timestamp last ->
  insertByTimestamp doc (l ++ [last]) = insertByTimestamp doc l ++ [last].
Proof.
  intros Hle. induction l as [|x l IH]; cbn [insertByTimestamp app].
  - by rewrite (proj2 (Z.leb_le _ _) Hle).
  - destruct (timestamp doc <=? timestamp x); [done|]. by rewrite IH.
Qed.

(** A document later than all the others is sorted last. *)
Lemma sortByTimestamp_snoc l last :
  (forall doc, doc ∈ l -> timestamp doc <= timestamp last) ->
  sortByTimestamp (l ++ [last]) = sortByTimestamp l ++ [last].
Proof.
  unfold sortByTimestamp. induction l as [|x l IH]; intros Hall; [done|].
  cbn [foldr app]. rewrite IH.
  - apply insertByTimestamp_snoc, Hall, list_elem_of_here.
  - intros doc Hdoc. by apply Hall, list_elem_of_further.
Qed.

Lemma populateMessage_timestamp usersDb (l : list MessageDoc) :
  hTimestamp <$> (populateMessage usersDb <$> l) = timestamp <$> l.
Proof. rewrite <- list_fmap_compose. by apply list_fmap_ext. Qed.

(** *** Chat history *)

Lemma messagesOfRoom_snoc roomId docs doc :
  messagesOfRoom roomId (docs ++ [doc]) =
    messagesOfRoom roomId docs ++ (if decide (room doc = roomId) then [doc] else []).
Proof.
  unfold messagesOfRoom. rewrite filter_app. reflexivity.
Qed.

(** X16: when its query succeeds, the history route answers 200 with
    exactly the stored messages of the room, each once and with its author
    populated, in ascending order of their timestamps. *)
Theorem history_lists_room_in_time_order ε σ roomId :
  queryError ε = None ->
  exists entries,
    getMessages ε σ roomId = Json 200 entries /\
    entries ≡ₚ populateMessage (userCollection σ)
                 <$> messagesOfRoom roomId (messageCollection σ) /\
    ascending (hTimestamp <$> entries) /\
    (forall e, e ∈ entries -> hRoom e = roomId) /\
    (forall doc, doc ∈ messageCollection σ -> room doc = roomId ->
       populateMessage (userCollection σ) doc ∈ entries).
Proof.
  intros Hq. exists (findMessages σ roomId).
  assert (findMessages σ roomId
          ≡ₚ populateMessage (userCollection σ)
               <$> messagesOfRoom roomId (messageCollection σ)) as Hperm.
  { unfold findMessages. by rewrite sortByTimestamp_Permutation. }
  split; [unfold getMessages; by rewrite Hq|]. split; [done|]. split; [|split].
  - unfold findMessages. rewrite populateMessage_timestamp.
    apply sortByTimestamp_ascending.
  - intros e. rewrite Hperm. intros (doc & -> & Hdoc)%list_elem_of_fmap.
    by apply list_elem_of_filter in Hdoc as [Hroom _].
  - intros doc Hdoc Hroom. rewrite Hperm. apply list_elem_of_fmap.
    exists doc. split; [done|]. by apply list_elem_of_filter.
Qed.

Lemma history_lists_room_in_time_order_witness :
  exists entries,
    getMessages quietEnv demoBoot "r" = Json 200 entries /\
    entries ≡ₚ populateMessage (userCollection demoBoot)
                 <$> messagesOfRoom "r" (messageCollection demoBoot) /\
    ascending (hTimestamp <$> entries) /\
    (forall e, e ∈ entries -> hRoom e = "r") /\
    (forall doc, doc ∈ messageCollection demoBoot -> room doc = "r" ->
       populateMessage (userCollection demoBoot) doc ∈ entries).
Proof.
  exact (history_lists_room_in_time_order quietEnv demoBoot "r" eq_refl).
Defined.

(** X17: a chat message that is broadcast is in the history of its room
    from then on, with the text, the author name and the timestamp that
    were broadcast. *)
Theorem broadcast_message_in_history c roomId text token ε σ
    recipients text' author ts :
  let out := handle (input c (ChatMessage roomId text token) ε) σ in
  Emit recipients (ChatBroadcast text' author ts) ∈ snd out ->
  exists e,
    e ∈ findMessages (fst out) roomId /\
    hMessage e = text' /\
    puUsername <$> hUser e = Some author /\
    hTimestamp e = ts.
Proof.
  cbv zeta. rewrite handle_chat, chatMessage_cases. cbn [snd].
  destruct (token ≫= jwtVerify ε) as [decoded|]; cbn [fst snd app].
  2:{ intros Hin%list_elem_of_singleton. discriminate Hin. }
  destruct (saveRejects ε); cbn [fst snd app].
  { intros Hin%list_elem_of_singleton. discriminate Hin. }
  cbv zeta. destruct (findRejects ε); cbn [fst snd app].
  { rewrite elem_of_cons, list_elem_of_singleton.
    intros [Hin | Hin]; discriminate Hin. }
  destruct (userCollection σ !! tokenId decoded) as [name|] eqn:Hname;
    cbn [fst snd app].
  2:{ rewrite elem_of_cons, list_elem_of_singleton.
      intros [Hin | Hin]; discriminate Hin. }
  rewrite elem_of_cons, list_elem_of_singleton.
  intros [Hin | Hin]; [discriminate Hin|]. injection Hin as -> -> -> ->.
  set (doc := chatDoc σ ε roomId (tokenId decoded) text).
  exists (populateMessage (userCollection σ) doc).
  split; [|split; [done|split; [|done]]].
  - unfold findMessages. cbn [userCollection messageCollection setMessages].
    apply list_elem_of_fmap. exists doc. split; [done|].
    rewrite sortByTimestamp_Permutation, messagesOfRoom_snoc.
    apply elem_of_app. right. cbn [room doc chatDoc].
    rewrite decide_True by done. apply list_elem_of_here.
  - cbn. unfold populateUser. by rewrite Hname.
Qed.

Lemma broadcast_message_in_history_witness :
  let σ := run demoTrace demoBoot in
  let out := handle (input "a" (ChatMessage "r" "hi" (Some "good")) demoEnv) σ in
  exists e,
    e ∈ findMessages (fst out) "r" /\
    hMessage e = "hi" /\
    puUsername <$> hUser e = Some "ann" /\
    hTimestamp e = now demoEnv.
Proof.
  cbv zeta.
  apply (broadcast_message_in_history "a" "r" "hi" (Some "good") demoEnv
           (run demoTrace demoBoot) {["a"; "b"]} "hi" "ann" (now demoEnv)).
  apply list_elem_of_further, list_elem_of_singleton. by vm_compute.
Defined.

(** X18: a chat message that is saved and broadcast with a timestamp later
    than those of the room's stored messages becomes the last entry of the
    room's history, after the entries that were there, and the history of
    every other room stays as it was. *)
Theorem chat_appends_to_history c roomId text t ε decoded author σ :
  jwtVerify ε t = Some decoded ->
  saveRejects ε = false -> findRejects ε = false ->
  userCollection σ !! tokenId decoded = Some author ->
  (forall doc, doc ∈ messageCollection σ -> room doc = roomId ->
     timestamp doc < now ε) ->
  let σ' := fst (handle (input c (ChatMessage roomId text (Some t)) ε) σ) in
  findMessages σ' roomId =
    findMessages σ roomId ++
      [{| hId := length (messageCollection σ); hRoom := roomId;
          hUser := Some {| puId := tokenId decoded; puUsername := author |};
          hMessage := text; hTimestamp := now ε |}] /\
  (forall r', r' <> roomId -> findMessages σ' r' = findMessages σ r').
Proof.
  intros Hv Hsave Hfind Hauthor Hlater. cbv zeta.
  rewrite (chat_success c roomId text t ε decoded author σ
             Hv Hsave Hfind Hauthor). cbv zeta. cbn [fst].
  unfold findMessages. cbn [userCollection messageCollection setMessages].
  split.
  - rewrite messagesOfRoom_snoc. cbn [room chatDoc].
    rewrite decide_True by done.
    rewrite sortByTimestamp_snoc, fmap_app.
    + f_equal. cbn. unfold populateMessage, populateUser. cbn.
      by rewrite Hauthor.
    + intros doc [Hroom Hdoc]%list_elem_of_filter. cbn.
      specialize (Hlater doc Hdoc Hroom). lia.
  - intros r' Hr'. rewrite messagesOfRoom_snoc. cbn [room chatDoc].
    rewrite decide_False by done. by rewrite app_nil_r.
Qed.

Lemma chat_appends_to_history_witness :
  let σ := run demoTrace demoBoot in
  let σ' := fst (handle (input "a" (ChatMessage "r" "hi" (Some "good")) demoEnv) σ) in
  findMessages σ' "r" =
    findMessages σ "r" ++
      [{| hId := 1; hRoom := "r";
          hUser := Some {| puId := "u1"; puUsername := "ann" |};
          hMessage := "hi"; hTimestamp := now demoEnv |}].
Proof.
  cbv zeta.
  destruct (chat_appends_to_history "a" "r" "hi" "good" demoEnv
              {| tokenId := "u1"; tokenUsername := "ann" |} "ann"
              (run demoTrace demoBoot) eq_refl eq_refl eq_refl)
    as [Hgrow _].
  - by vm_compute.
  - intros doc Hdoc _.
    change (messageCollection (run demoTrace demoBoot)) with demoHistory in Hdoc.
    apply list_elem_of_singleton in Hdoc as ->. by vm_compute.
  - exact Hgrow.
Defined.

(** *** Looking documents up *)

Lemma find_snoc {A} (f : A -> bool) (l : list A) (x : A) :
  List.find f (l ++ [x]) =
    match List.find f l with
    | Some a => Some a
    | None => if f x then Some x else None
    end.
Proof.
  induction l as [|y l IH]; cbn [List.find app]; [done|].
  by destruct (f y).
Qed.

Lemma findRoomById_Some roomDocs id room :
  findRoomById roomDocs id = Some room -> rId room = id /\ room ∈ roomDocs.
Proof.
  unfold findRoomById. intros [Hin Heq]%find_some. split.
  - by apply String.eqb_eq.
  - by apply list_elem_of_In.
Qed.

Lemma findRoomById_None roomDocs id :
  id ∉ rId <$> roomDocs -> findRoomById roomDocs id = None.
Proof.
  intros Hout. destruct (findRoomById roomDocs id) as [room|] eqn:Hfind; [|done].
  apply findRoomById_Some in Hfind as [<- Hin]. exfalso. apply Hout.
  apply list_elem_of_fmap. by exists room.
Qed.

(** With identifiers that are unique, a stored room is found by its
    identifier. *)
Lemma findRoomById_member roomDocs room :
  NoDup (rId <$> roomDocs) -> room ∈ roomDocs ->
  findRoomById roomDocs (rId room) = Some room.
Proof.
  unfold findRoomById.
  induction roomDocs as [|r docs IH]; intros Hnd Hin.
  { by apply elem_of_nil in Hin. }
  rewrite fmap_cons in Hnd. apply NoDup_cons in Hnd as [Hfresh Hnd].
  cbn [List.find]. apply elem_of_cons in Hin as [-> | Hin].
  - by rewrite String.eqb_refl.
  - destruct (String.eqb_spec (rId r) (rId room)) as [Heq | _]; [|by apply IH].
    exfalso. apply Hfresh. rewrite Heq. apply list_elem_of_fmap. by exists room.
Qed.

Lemma findUserByName_Some userDocs name user :
  findUserByName userDocs name = Some user ->
  uUsername user = name /\ user ∈ userDocs.
Proof.
  unfold findUserByName. intros [Hin Heq]%find_some. split.
  - by apply String.eqb_eq.
  - by apply list_elem_of_In.
Qed.

Lemma findUserByName_None userDocs name :
  findUserByName userDocs name = None <-> name ∉ uUsername <$> userDocs.
Proof.
  split.
  - intros Hnone (u & -> & Hu)%list_elem_of_fmap.
    unfold findUserByName in Hnone.
    apply list_elem_of_In in Hu.
    pose proof (find_none _ _ Hnone u Hu) as Hneq. cbn in Hneq.
    by rewrite String.eqb_refl in Hneq.
  - intros Hout.
    destruct (findUserByName userDocs name) as [u|] eqn:Hfind; [|done].
    apply findUserByName_Some in Hfind as [<- Hin]. exfalso. apply Hout.
    apply list_elem_of_fmap. by exists u.
Qed.

(** *** The PIN check *)

(** X19: when its query succeeds, verify-pin answers 404 for an unknown
    room, 200 when the submitted PIN is the string stored with the room,
    and 403 for any other submission, a non-string included; whether the
    room is a local-file room plays no part. *)
Theorem verify_pin_outcomes ε roomDocs id pin :
  queryError ε = None ->
  (findRoomById roomDocs id = None ->
   verifyPin ε roomDocs id pin = ErrorJson 404 "Room not found") /\
  (forall room,
     findRoomById roomDocs id = Some room ->
     (pin = SubmittedString (rPin room) ->
      verifyPin ε roomDocs id pin =
        Json 200 {| success := true;
                    grantedVideoUrl :=
                      if rIsLocalFile room then Some ("/api/stream/" +:+ id)
                      else rVideoUrl room;
                    grantedIsLocalFile := rIsLocalFile room |}) /\
     (pin <> SubmittedString (rPin room) ->
      verifyPin ε roomDocs id pin = ErrorJson 403 "Invalid PIN")).
Proof.
  intros Hq. unfold verifyPin. rewrite Hq. split.
  - by intros ->.
  - intros room Hroom. rewrite Hroom.
    destruct (findRoomById_Some _ _ _ Hroom) as [Hid _]. split.
    + intros ->. cbn [pinMatches]. by rewrite String.eqb_refl, Hid.
    + intros Hne. destruct pin as [s|]; cbn [pinMatches negb]; [|done].
      destruct (String.eqb_spec (rPin room) s) as [<- | _]; [|done].
      by destruct Hne.
Qed.

Lemma verify_pin_outcomes_witness :
  verifyPin quietEnv demoRooms "r1" (SubmittedString "1234") =
    Json 200 {| success := true; grantedVideoUrl := Some "/api/stream/r1";
                grantedIsLocalFile := true |} /\
  verifyPin quietEnv demoRooms "r1" SubmittedOther = ErrorJson 403 "Invalid PIN" /\
  verifyPin quietEnv demoRooms "r3" (SubmittedString "1234") =
    ErrorJson 403 "Invalid PIN".
Proof.
  destruct (verify_pin_outcomes quietEnv demoRooms "r1" (SubmittedString "1234")
              eq_refl) as [_ H1].
  destruct (verify_pin_outcomes quietEnv demoRooms "r1" SubmittedOther eq_refl)
    as [_ H2].
  destruct (verify_pin_outcomes quietEnv demoRooms "r3" (SubmittedString "1234")
              eq_refl) as [_ H3].
  split; [|split].
  - exact (proj1 (H1 _ eq_refl) eq_refl).
  - exact (proj2 (H2 _ eq_refl) ltac:(discriminate)).
  - exact (proj2 (H3 _ eq_refl) ltac:(discriminate)).
Defined.

(** X20: the room list sends every stored room whole, its PIN included: a
    PIN read from the list passes the PIN check of its room. *)
Theorem room_list_discloses_pins ε ε' usersDb roomDocs :
  queryError ε = None -> queryError ε' = None ->
  NoDup (rId <$> roomDocs) ->
  exists listings,
    getRooms ε usersDb roomDocs = Json 200 listings /\
    listed <$> listings = roomDocs /\
    forall l, l ∈ listings ->
      replyCode (verifyPin ε' roomDocs (rId (listed l))
                   (SubmittedString (rPin (listed l)))) = 200.
Proof.
  intros Hq Hq' Hnd. unfold getRooms. rewrite Hq. eexists. split; [done|].
  split.
  - rewrite <- list_fmap_compose. rewrite <- (list_fmap_id roomDocs) at 2.
    by apply list_fmap_ext.
  - intros l (room & -> & Hroom)%list_elem_of_fmap. cbn [listed].
    destruct (verify_pin_outcomes ε' roomDocs (rId room)
                (SubmittedString (rPin room)) Hq') as [_ Hfound].
    destruct (Hfound room (findRoomById_member _ _ Hnd Hroom)) as [-> _]; done.
Qed.

Lemma room_list_discloses_pins_witness :
  exists listings,
    getRooms quietEnv {[ "u1" := "ann" ]} demoRooms = Json 200 listings /\
    rPin <$> (listed <$> listings) = ["1234"; "9999"].
Proof.
  destruct (room_list_discloses_pins quietEnv quietEnv {[ "u1" := "ann" ]}
              demoRooms eq_refl eq_refl) as (listings & Hreply & Hlisted & _).
  { change (rId <$> demoRooms) with ["r1"; "r3"]. apply NoDup_cons.
    split; [|apply NoDup_singleton].
    rewrite list_elem_of_singleton. discriminate. }
  exists listings. split; [exact Hreply|]. by rewrite Hlisted.
Defined.

(** X21: a room created with a non-empty PIN is stored under a fresh
    identifier with that PIN and the creator taken from the token; from
    then on the PIN check of the new room accepts that PIN, and the PIN
    check of every other room answers as before. *)
Theorem created_room_verifies ε ε' creator body roomDocs c p :
  bPin body = Some (String c p) -> saveError ε = None ->
  queryError ε' = None -> newObjectId ε ∉ rId <$> roomDocs ->
  exists room,
    postRooms ε creator body roomDocs = (Json 201 room, roomDocs ++ [room]) /\
    rId room = newObjectId ε /\ rPin room = String c p /\
    rCreator room = creator /\
    rIsLocalFile room = default false (bIsLocalFile body) /\
    replyCode (verifyPin ε' (roomDocs ++ [room]) (newObjectId ε)
                 (SubmittedString (String c p))) = 200 /\
    (forall id pin, id <> newObjectId ε ->
       verifyPin ε' (roomDocs ++ [room]) id pin = verifyPin ε' roomDocs id pin).
Proof.
  intros Hpin Hsave Hq Hfresh. unfold postRooms. rewrite Hpin, Hsave.
  eexists. split; [done|]. cbn [rId rPin rCreator rIsLocalFile].
  split; [done|]. split; [done|]. split; [done|]. split; [done|].
  unfold verifyPin, findRoomById. rewrite Hq. split.
  - rewrite find_snoc. fold (findRoomById roomDocs (newObjectId ε)).
    rewrite (findRoomById_None _ _ Hfresh). cbn [rId rPin].
    rewrite String.eqb_refl. cbn [pinMatches]. by rewrite String.eqb_refl.
  - intros id pin Hid. rewrite find_snoc. cbn [rId].
    destruct (List.find _ roomDocs); [done|].
    destruct (String.eqb_spec (newObjectId ε) id) as [Heq | _]; [|done].
    by destruct Hid.
Qed.

Lemma created_room_verifies_witness :
  let body := {| bName := Some "new"; bVideoUrl := Some "https://example.org/v";
                 bIsLocalFile := None; bLocalFilePath := None;
                 bPin := Some "4321" |} in
  exists room,
    postRooms quietEnv "u1" body demoRooms = (Json 201 room, demoRooms ++ [room]) /\
    rIsLocalFile room = false /\
    replyCode (verifyPin quietEnv (demoRooms ++ [room]) "id-new"
                 (SubmittedString "4321")) = 200.
Proof.
  cbv zeta.
  destruct (created_room_verifies quietEnv quietEnv "u1"
              {| bName := Some "new"; bVideoUrl := Some "https://example.org/v";
                 bIsLocalFile := None; bLocalFilePath := None;
                 bPin := Some "4321" |} demoRooms "4"%char "321"
              eq_refl eq_refl eq_refl)
    as (room & Hpost & _ & _ & _ & Hlocal & Hverify & _).
  { cbn. rewrite !elem_of_cons, elem_of_nil. by intros [? | [? | ?]]. }
  exists room. split; [exact Hpost|]. split; [exact Hlocal | exact Hverify].
Defined.

(** X22: a room cannot be created without a PIN: when the PIN is missing
    or empty, or the write fails, the answer is 500 and the Room collection
    is left as it was. *)
Theorem room_creation_needs_pin ε creator body roomDocs :
  bPin body = None \/ bPin body = Some EmptyString \/ saveError ε <> None ->
  replyCode (fst (postRooms ε creator body roomDocs)) = 500 /\
  snd (postRooms ε creator body roomDocs) = roomDocs.
Proof.
  unfold postRooms. intros [-> | [-> | Hsave]]; [done|done|].
  destruct (bPin body) as [[|c p]|]; [done| |done].
  by destruct (saveError ε).
Qed.

Lemma room_creation_needs_pin_witness :
  let body := {| bName := Some "new"; bVideoUrl := None; bIsLocalFile := None;
                 bLocalFilePath := None; bPin := Some "" |} in
  replyCode (fst (postRooms quietEnv "u1" body demoRooms)) = 500 /\
  snd (postRooms quietEnv "u1" body demoRooms) = demoRooms.
Proof.
  exact (room_creation_needs_pin quietEnv "u1"
           {| bName := Some "new"; bVideoUrl := None; bIsLocalFile := None;
              bLocalFilePath := None; bPin := Some "" |} demoRooms
           (or_intror (or_introl eq_refl))).
Defined.

(** X23: for a local-file room, a successful PIN check hands out the
    streaming path of the room and not its file path; it does so whether
    or not the room has a file path, and the streaming route then answers
    404 for that room exactly when the file path is missing or empty. *)
Theorem granted_stream_url_and_route ε roomDocs id pin g jwt files req :
  verifyPin ε roomDocs id pin = Json 200 g ->
  grantedIsLocalFile g = true ->
  Streamer.roomId req = id ->
  Streamer.authenticated (backendOf ε jwt files roomDocs) req ->
  grantedVideoUrl g = Some ("/api/stream/" +:+ id) /\
  exists room,
    findRoomById roomDocs id = Some room /\ rIsLocalFile room = true /\
    (Streamer.status (Streamer.getStream (backendOf ε jwt files roomDocs) req)
       = 404
     <-> JS.truthy (rLocalFilePath room) = false).
Proof.
  unfold verifyPin. intros Hgranted Hlocal Hreq Hauth.
  destruct (queryError ε) eqn:Hq; [discriminate|].
  destruct (findRoomById roomDocs id) as [room|] eqn:Hroom; [|discriminate].
  destruct (negb (pinMatches (rPin room) pin)); [discriminate|].
  injection Hgranted as <-. cbn in Hlocal.
  destruct (findRoomById_Some _ _ _ Hroom) as [Hid _].
  split; [cbn; by rewrite Hlocal, Hid|].
  exists room. split; [done|]. split; [done|].
  rewrite (StreamerFacts.getStream_authenticated _ _ Hauth).
  unfold Streamer.streamHandler, backendOf.
  cbn [Streamer.roomFindById Streamer.fsFile].
  rewrite Hq, Hreq, Hroom.
  cbn [roomDocOf Streamer.isLocalFile Streamer.localFilePath].
  rewrite Hlocal. cbn [negb orb].
  destruct (JS.truthy (rLocalFilePath room)); cbn [negb]; [|done].
  split; [|done].
  destruct (files _); [|discriminate].
  destruct (JS.truthy (Streamer.range req)); [|discriminate].
  cbv zeta. destruct (Streamer.createReadStream _ _ _); discriminate.
Qed.

Lemma granted_stream_url_and_route_witness :
  let req := Streamer.demoRequest "r1" None in
  let B := backendOf quietEnv (fun t => String.eqb t "good")
             (fun _ => None) demoRooms in
  exists room,
    findRoomById demoRooms "r1" = Some room /\ rIsLocalFile room = true /\
    (Streamer.status (Streamer.getStream B req) = 404
     <-> JS.truthy (rLocalFilePath room) = false).
Proof.
  cbv zeta.
  destruct (granted_stream_url_and_route quietEnv demoRooms "r1"
              (SubmittedString "1234")
              {| success := true; grantedVideoUrl := Some "/api/stream/r1";
                 grantedIsLocalFile := true |}
              (fun t => String.eqb t "good") (fun _ => None)
              (Streamer.demoRequest "r1" None) eq_refl eq_refl eq_refl)
    as [_ Hroute].
  - exists "Bearer good", "good". by repeat split.
  - exact Hroute.
Defined.

(** *** Accounts *)

(** X24: [POST /api/login] passes the submitted user name to the query
    unchecked, as a string or as a query operator.  It issues a token
    exactly when the query succeeds, the query selects a stored user (the
    first one whose name the submitted value selects) and bcrypt accepts
    the submitted password against that user's stored hash; the token is
    signed for that user's identifier and name.  For a submitted string the
    user selected has that name; for an operator the name is any the
    operator accepts, so a token can be issued for a name that was never
    submitted.  No user selected and a refused password are both answered
    with 400, with different messages. *)
Theorem login_issues_token_iff K ε username password userDocs :
  (forall tok,
     loginRequest K ε username password userDocs = Json 200 tok <->
     queryError ε = None /\
     exists user pw,
       findUser userDocs username = Some user /\
       password = Some pw /\
       bcryptCompare K pw (uPassword user) = true /\
       tok = jwtSign K {| tokenId := uId user; tokenUsername := uUsername user |}) /\
  (forall user,
     findUser userDocs username = Some user ->
     user ∈ userDocs /\
     nameSelects username (uUsername user) = true /\
     (forall s, username = NameString s -> uUsername user = s)) /\
  (findUser userDocs username = None <->
   forall user, user ∈ userDocs -> nameSelects username (uUsername user) = false) /\
  (queryError ε = None -> findUser userDocs username = None ->
   loginRequest K ε username password userDocs = ErrorJson 400 "User not found") /\
  (queryError ε = None ->
   forall user pw,
     findUser userDocs username = Some user -> password = Some pw ->
     bcryptCompare K pw (uPassword user) = false ->
     loginRequest K ε username password userDocs
       = ErrorJson 400 "Invalid password").
Proof.
  unfold loginRequest. split; [|split; [|split; [|split]]].
  - intros tok. split.
    + destruct (queryError ε); [discriminate|].
      destruct (findUser userDocs username) as [user|]; [|discriminate].
      destruct password as [pw|]; [|discriminate].
      destruct (bcryptCompare K pw (uPassword user)) eqn:Hok; [|discriminate].
      intros [= <-]. split; [done|]. by exists user, pw.
    + intros (-> & user & pw & -> & -> & -> & ->). done.
  - intros user Hfind. unfold findUser in Hfind.
    apply find_some in Hfind as [Hin Hsel].
    split; [by apply list_elem_of_In|]. split; [done|].
    intros s ->. cbn [nameSelects] in Hsel. by apply String.eqb_eq.
  - unfold findUser. split.
    + intros Hnone user Hin%list_elem_of_In.
      exact (find_none _ _ Hnone user Hin).
    + intros Hall. destruct (List.find _ userDocs) as [user|] eqn:Hfind; [|done].
      apply find_some in Hfind as [Hin%list_elem_of_In Hsel].
      rewrite (Hall user Hin) in Hsel. discriminate Hsel.
  - by intros -> ->.
  - by intros -> user pw -> -> ->.
Qed.

Lemma login_issues_token_iff_witness :
  loginRequest toyCrypto quietEnv (NameString "ann") (Some "secret") demoUsers
    = Json 200 "u1.ann" /\
  loginRequest toyCrypto quietEnv (NameOperator (fun name => negb (String.eqb name "")))
    (Some "secret") demoUsers = Json 200 "u1.ann" /\
  loginRequest toyCrypto quietEnv (NameString "ann") (Some "guess") demoUsers
    = ErrorJson 400 "Invalid password" /\
  loginRequest toyCrypto quietEnv (NameString "zoe") (Some "secret") demoUsers
    = ErrorJson 400 "User not found".
Proof.
  destruct (login_issues_token_iff toyCrypto quietEnv (NameString "ann")
              (Some "secret") demoUsers) as (Hiff & _).
  destruct (login_issues_token_iff toyCrypto quietEnv
              (NameOperator (fun name => negb (String.eqb name "")))
              (Some "secret") demoUsers) as (Hoperator & _).
  destruct (login_issues_token_iff toyCrypto quietEnv (NameString "ann")
              (Some "guess") demoUsers) as (_ & _ & _ & _ & Hwrong).
  destruct (login_issues_token_iff toyCrypto quietEnv (NameString "zoe")
              (Some "secret") demoUsers) as (_ & _ & _ & Hunknown & _).
  split; [|split; [|split]].
  - apply Hiff. split; [done|].
    exists {| uId := "u1"; uUsername := "ann"; uPassword := "salt$secret" |},
      "secret".
    by repeat split.
  - apply Hoperator. split; [done|].
    exists {| uId := "u1"; uUsername := "ann"; uPassword := "salt$secret" |},
      "secret".
    by repeat split.
  - exact (Hwrong eq_refl _ "guess" eq_refl eq_refl eq_refl).
  - exact (Hunknown eq_refl eq_refl).
Defined.

(** X25: an account that has just been registered can log in: with a name
    that is free and a write that succeeds, registration answers 201, and a
    login with the same name and password then yields a token signed for
    the new user, given that bcrypt accepts a password against its own
    hash; logins under other names answer as before. *)
Theorem registered_user_can_login K ε ε' c name pw userDocs :
  findUserByName userDocs (String c name) = None ->
  saveError ε = None -> queryError ε' = None ->
  bcryptCompare K pw (bcryptHash K (bcryptSalt ε) pw) = true ->
  let out := register K ε (Some (String c name)) (Some pw) userDocs in
  fst out = Json 201 "User created successfully" /\
  login K ε' (String c name) (Some pw) (snd out) =
    Json 200 (jwtSign K {| tokenId := newObjectId ε;
                           tokenUsername := String c name |}) /\
  (forall other pw', other <> String c name ->
     login K ε' other pw' (snd out) = login K ε' other pw' userDocs).
Proof.
  intros Hfree Hsave Hq Hcompare. cbv zeta.
  unfold register. rewrite Hfree, Hsave. cbn [fst snd].
  split; [done|]. unfold login, loginRequest, findUser. cbn [nameSelects].
  unfold findUserByName in Hfree. rewrite Hq. split.
  - rewrite find_snoc, Hfree. cbn [uUsername]. rewrite String.eqb_refl.
    cbn [uPassword uId uUsername]. by rewrite Hcompare.
  - intros other pw' Hother. rewrite find_snoc. cbn [uUsername].
    destruct (List.find (fun u => String.eqb (uUsername u) other) userDocs);
      [done|].
    destruct (String.eqb_spec (String c name) other) as [Heq | _]; [|done].
    by destruct Hother.
Qed.

Lemma registered_user_can_login_witness :
  let out := register toyCrypto quietEnv (Some "bob") (Some "hunter2") demoUsers in
  fst out = Json 201 "User created successfully" /\
  login toyCrypto quietEnv "bob" (Some "hunter2") (snd out) = Json 200 "id-new.bob".
Proof.
  cbv zeta.
  destruct (registered_user_can_login toyCrypto quietEnv quietEnv
              "b"%char "ob" "hunter2" demoUsers
              eq_refl eq_refl eq_refl eq_refl) as (Hreg & Hlogin & _).
  split; [exact Hreg | exact Hlogin].
Defined.

(** X26: registration keeps user names unique and never disturbs the
    stored accounts: the collection after a registration is the one before
    with at most the new account added, a name that is taken is refused
    with 500, and any answer other than 201 leaves the collection as it
    was. *)
Theorem register_keeps_usernames_unique K ε username password userDocs :
  NoDup (uUsername <$> userDocs) ->
  let out := register K ε username password userDocs in
  NoDup (uUsername <$> snd out) /\
  (exists added, snd out = userDocs ++ added) /\
  (replyCode (fst out) <> 201 -> snd out = userDocs) /\
  (forall name, username = Some name -> name ∈ uUsername <$> userDocs ->
     replyCode (fst out) = 500).
Proof.
  intros Hnd. cbv zeta. unfold register.
  assert (forall code msg,
            NoDup (uUsername <$> userDocs) /\
            (exists added : list UserDoc, userDocs = userDocs ++ added) /\
            (code <> 201 -> userDocs = userDocs) /\
            (forall name : string, username = Some name ->
               name ∈ uUsername <$> userDocs ->
               replyCode (ErrorJson (A := string) 500 msg) = 500)) as Hrefused.
  { intros code msg. split; [done|]. split; [|by split].
    exists []. by rewrite app_nil_r. }
  destruct password as [pw|]; cbn [fst snd]; [|by apply (Hrefused 500)].
  destruct username as [[|c n]|]; cbn [fst snd];
    [by apply (Hrefused 500)| |by apply (Hrefused 500)].
  destruct (findUserByName userDocs (String c n)) as [u|] eqn:Hfind;
    cbn [fst snd]; [by apply (Hrefused 500)|].
  destruct (saveError ε); cbn [fst snd]; [by apply (Hrefused 500)|].
  apply findUserByName_None in Hfind. split; [|split; [|split]].
  - rewrite fmap_app. apply NoDup_app. split; [done|]. split.
    + intros x Hx [-> | []%elem_of_nil]%elem_of_cons. by apply Hfind.
    + apply NoDup_singleton.
  - by eexists.
  - intros Hcode. by destruct Hcode.
  - intros name [= <-] Hin. by destruct Hfind.
Qed.

Lemma register_keeps_usernames_unique_witness :
  let out := register toyCrypto quietEnv (Some "ann") (Some "again") demoUsers in
  replyCode (fst out) = 500 /\ snd out = demoUsers.
Proof.
  cbv zeta.
  assert (NoDup (uUsername <$> demoUsers)) as Hnd by apply NoDup_singleton.
  destruct (register_keeps_usernames_unique toyCrypto quietEnv (Some "ann")
              (Some "again") demoUsers Hnd) as (_ & _ & Hkeep & Htaken).
  assert (replyCode (fst (register toyCrypto quietEnv (Some "ann")
                            (Some "again") demoUsers)) = 500) as Hcode.
  { apply (Htaken "ann" eq_refl). apply list_elem_of_singleton. reflexivity. }
  split; [exact Hcode|]. apply Hkeep. rewrite Hcode. discriminate.
Defined.

End ApiFacts.
